(** * Apollo usage report plugin (packages/plugins/apollo-usage-report/src/index.ts)

    A shallow embedding of the plugin's hooks and of [sendTrace], with the
    properties of the trace collector and of the batch dispatcher.

    Conventions of the embedding.
    - A JavaScript value of type [string | undefined] is an [option string];
      [truthy] is JavaScript's truthiness on it (the empty string is falsy).
    - A call that can throw returns a [completion]; a hook is a function from
      the plugin's world [State] to a completion and the next world, so that
      what was written before a throw stays written.
    - A promise is represented by the completion it settles with; an async
      function is a resumable computation ([SendTrace]) that stops at each
      [await].
    - A plain object used as a dictionary ([Record<string, T>]) is the list of
      its own enumerable properties in creation order ([JsObject]); a [Map] is
      the list of its entries in insertion order ([JsMap]); the [WeakMap] of
      the instrumentation is a [gmap].
    - Functions imported from other packages are operations of a class:
      [printSchema] and [stripIgnoredCharacters] of [GraphQLJS],
      [Report.encode] of [ReportEncoder]. The trace payload built by the
      inline-trace instrumentation is a type parameter [Trace]. *)

From Stdlib Require Import String Ascii NArith Strings.Byte Sorting.Permutation.
From stdpp Require Import base option strings list gmap.

Local Open Scope string_scope.
Local Open Scope list_scope.

(** ** JavaScript values *)

Inductive ErrorClass := ErrorC | TypeErrorC | GraphQLErrorC | HostErrorC.

Record JsError := { err_class : ErrorClass; err_message : string }.

Inductive completion (A : Type) : Type :=
| Normal (a : A)
| Throw (e : JsError).
Arguments Normal {A} a.
Arguments Throw {A} e.

(** A promise, by what it settles with: [Normal v] when it is fulfilled with
    [v], [Throw e] when it is rejected with [e]. *)
Definition Promise (A : Type) : Type := completion A.

(** Truthiness of a [string | undefined]. *)
Definition truthy (v : option string) : bool :=
  match v with
  | Some s => negb (String.eqb s "")
  | None => false
  end.

(** [a || b] on [string | undefined]. *)
Definition js_or (a b : option string) : option string :=
  if truthy a then a else b.

(** The line feed of the template literal in [onEnveloped]. *)
Definition LF : string := String (ascii_of_nat 10) EmptyString.

(** ** Host objects *)

Record Process := { env : option (gmap string string) }.

(** What the plugin reads of [globalThis]: [process] (absent outside Node),
    and the [crypto] and [TextEncoder] that [hashSHA256] takes as its default
    [api]. A [Uint8Array] is a list of bytes. *)
Record GlobalThis := {
  process : option Process;
  subtle_digest : string -> list byte -> Promise (list byte);
  TextEncoder_encode : string -> list byte
}.

Inductive LogLevel := error | warn | info | debug.

Inductive Msg :=
| MStr (s : string)
| MErr (e : JsError).

(** One call of a method of the host's logger: the level and the arguments. *)
Definition LogEntry : Type := LogLevel * list Msg.

Definition YogaLogger : Type := LogLevel -> list Msg -> LogEntry.

Record HttpRequest := {
  url : string;
  method : string;
  headers : list (string * option string);
  body : list byte
}.

Record Response := {
  status : nat;
  text : Promise string
}.

(** [response.ok] of the Fetch standard: the status is in the range 200-299. *)
Definition ok (r : Response) : bool :=
  (200 <=? status r)%nat && (status r <=? 299)%nat.

Record FetchAPI := { fetch : HttpRequest -> Promise Response }.

Record Yoga := { yoga_fetchAPI : FetchAPI; yoga_logger : YogaLogger }.

(** ** Options and environment *)

Record ApolloUsageReportOptions := {
  graphRef : option string;
  apiKey : option string;
  endpoint : option string
}.

(** [globalThis.process?.env?.[name]] *)
Definition process_env (g : GlobalThis) (name : string) : option string :=
  match process g with
  | Some p =>
      match env p with
      | Some e => e !! name
      | None => None
      end
  | None => None
  end.

Definition getEnvVar (g : GlobalThis) (name : string) (defaultValue : option string)
  : option string :=
  js_or (js_or (process_env g name) defaultValue) None.

Definition DEFAULT_REPORTING_ENDPOINT : string :=
  "https://usage-reporting.api.apollographql.com/api/ingress/traces".

(** A destructuring default [x = d]: [d] is used when the property is
    [undefined], and only then. *)
Definition destructuring_default (v d : option string) : option string :=
  match v with
  | Some s => Some s
  | None => d
  end.

(** ** onYogaInit *)

(** The variables [fetchAPI] and [logger] of the closure, as [onYogaInit]
    assigns them. The Yoga constructor calls [onYogaInit] before the server
    handles a request, so the request hooks below take them as assigned. *)
Record Assigned := { fetchAPI : FetchAPI; logger : YogaLogger }.

Definition missing_api_key : JsError :=
  {| err_class := ErrorC;
     err_message := "[ApolloUsageReport] Missing API key. Please provide one in plugin options or with 'APOLLO_KEY' environment variable." |}.

Definition missing_graph_ref : JsError :=
  {| err_class := ErrorC;
     err_message := "[ApolloUsageReport] Missing Graph Ref. Please provide one in plugin options or with 'APOLLO_GRAPH_REF' environment variable." |}.

Definition plugin_logger (yoga : Yoga) : YogaLogger :=
  fun level messages => yoga_logger yoga level (MStr "[ApolloUsageReport]" :: messages).

Definition onYogaInit (g : GlobalThis) (options : ApolloUsageReportOptions) (yoga : Yoga)
  : Assigned * completion unit :=
  let assigned := {| fetchAPI := yoga_fetchAPI yoga; logger := plugin_logger yoga |} in
  if negb (truthy (getEnvVar g "APOLLO_KEY" (apiKey options))) then
    (assigned, Throw missing_api_key)
  else if negb (truthy (getEnvVar g "APOLLO_GRAPH_REF" (graphRef options))) then
    (assigned, Throw missing_graph_ref)
  else (assigned, Normal tt).

(** ** hashSHA256 *)

Definition hex_digit (d : N) : ascii :=
  match d with
  | 0 => "0" | 1 => "1" | 2 => "2" | 3 => "3" | 4 => "4" | 5 => "5" | 6 => "6"
  | 7 => "7" | 8 => "8" | 9 => "9" | 10 => "a" | 11 => "b" | 12 => "c"
  | 13 => "d" | 14 => "e" | _ => "f"
  end%N%char.

Fixpoint toString16_digits (fuel : nat) (n : N) (acc : string) : string :=
  match fuel with
  | O => acc
  | S fuel' =>
      let acc' := String (hex_digit (n mod 16)) acc in
      if (n <? 16)%N then acc' else toString16_digits fuel' (n / 16) acc'
  end.

(** [n.toString(16)] for a non-negative integer [n]. *)
Definition Number_toString16 (n : N) : string :=
  toString16_digits (S (N.to_nat (N.log2 n))) n "".

(** The first [n] characters of [pad] repeated; [cur] is what is left of the
    copy of [pad] being written. *)
Fixpoint pad_fill (n : nat) (pad cur : string) : string :=
  match n with
  | O => ""
  | S n' =>
      match cur with
      | String c cur' => String c (pad_fill n' pad cur')
      | EmptyString =>
          match pad with
          | String c pad' => String c (pad_fill n' pad pad')
          | EmptyString => ""
          end
      end
  end.

(** [s.padStart(targetLength, padString)] *)
Definition padStart (s : string) (targetLength : nat) (padString : string) : string :=
  if (targetLength <=? String.length s)%nat || String.eqb padString "" then s
  else pad_fill (targetLength - String.length s) padString padString +:+ s.

(** The loop of [hashSHA256] over the bytes of the digest. *)
Definition hex_of_bytes (hashBuffer : list byte) : string :=
  fold_left
    (fun hashHex bytes => hashHex +:+ padStart (Number_toString16 (Byte.to_N bytes)) 2 "0")
    hashBuffer "".

Definition hashSHA256 (str : string) (api : GlobalThis) : Promise string :=
  let utf8 := TextEncoder_encode api str in
  match subtle_digest api "SHA-256" utf8 with
  | Normal hashBuffer => Normal (hex_of_bytes hashBuffer)
  | Throw e => Throw e
  end.

(** ** Plain objects used as dictionaries *)

(** The own enumerable string-keyed properties, in creation order. An object
    literal [{}] also inherits the properties of [Object.prototype]
    ([constructor], [toString], ...), which [obj[k]] would find: the
    embedding is that of objects read and written under other keys, and the
    properties of the grouping loop are stated for such keys ([groupable]).
    The keys the plugin writes are of that kind: hexadecimal digests and
    strings that start with [#] (see [hex_of_bytes_not_inherited] and
    [operationKey_not_inherited]). *)
Definition JsObject (V : Type) : Type := list (string * V).

Definition Object_prototype_names : list string :=
  [ "constructor"; "__proto__"; "hasOwnProperty"; "isPrototypeOf";
    "propertyIsEnumerable"; "toLocaleString"; "toString"; "valueOf";
    "__defineGetter__"; "__defineSetter__"; "__lookupGetter__";
    "__lookupSetter__" ].

Section JsObject.
Context {V : Type}.

(** [o[k]] *)
Fixpoint obj_get (o : JsObject V) (k : string) : option V :=
  match o with
  | [] => None
  | (k', v) :: o' => if String.eqb k' k then Some v else obj_get o' k
  end.

(** [o[k] = v]: an existing property keeps its place, a new one is created
    last. *)
Fixpoint obj_set (o : JsObject V) (k : string) (v : V) : JsObject V :=
  match o with
  | [] => [(k, v)]
  | (k', v') :: o' =>
      if String.eqb k' k then (k', v) :: o' else (k', v') :: obj_set o' k v
  end.

(** [o[k] ||= v], for values that are objects (always truthy). *)
Definition obj_or_assign (o : JsObject V) (k : string) (v : V) : JsObject V :=
  match obj_get o k with
  | Some _ => o
  | None => obj_set o k v
  end.

(** A mutation [f] of the object stored under [k], seen through [o]. *)
Fixpoint obj_alter (f : V -> V) (k : string) (o : JsObject V) : JsObject V :=
  match o with
  | [] => []
  | (k', v) :: o' =>
      if String.eqb k' k then (k', f v) :: o' else (k', v) :: obj_alter f k o'
  end.
End JsObject.

(** *** Property order of [for ... in]

    Own keys that are array indices (canonical decimal strings below
    2^32 - 1) come first, in ascending numeric order; the other string keys
    follow in creation order. *)

Definition is_digit (c : ascii) : bool :=
  (48 <=? nat_of_ascii c)%nat && (nat_of_ascii c <=? 57)%nat.

Fixpoint digits_value (s : string) (acc : N) : option N :=
  match s with
  | EmptyString => Some acc
  | String c s' =>
      if is_digit c then digits_value s' (acc * 10 + (N.of_nat (nat_of_ascii c) - 48))%N
      else None
  end.

Definition array_index (k : string) : option N :=
  match k with
  | EmptyString => None
  | String c rest =>
      if Ascii.eqb c "0" && negb (String.eqb rest "") then None
      else
        match digits_value k 0 with
        | Some n => if (n <? 4294967295)%N then Some n else None
        | None => None
        end
  end.

Fixpoint insert_by_index (n : N) (k : string) (sorted : list (N * string)) : list (N * string) :=
  match sorted with
  | [] => [(n, k)]
  | (m, k') :: rest =>
      if (n <=? m)%N then (n, k) :: sorted else (m, k') :: insert_by_index n k rest
  end.

Fixpoint index_keys (ks : list string) : list (N * string) :=
  match ks with
  | [] => []
  | k :: ks' =>
      match array_index k with
      | Some n => insert_by_index n k (index_keys ks')
      | None => index_keys ks'
      end
  end.

Fixpoint string_keys (ks : list string) : list string :=
  match ks with
  | [] => []
  | k :: ks' =>
      match array_index k with
      | Some _ => string_keys ks'
      | None => k :: string_keys ks'
      end
  end.

(** The keys [for (const k in o)] visits, in order. *)
Definition for_in_keys {V : Type} (o : JsObject V) : list string :=
  map snd (index_keys (map fst o)) ++ string_keys (map fst o).

(** ** Maps keyed by object identity *)

(** A [Map] whose keys are objects: the entries in insertion order, the key
    being the identity of the object. *)
Definition JsMap (V : Type) : Type := list (nat * V).

Section JsMap.
Context {V : Type}.

(** [m.get(k)] *)
Fixpoint Map_get (m : JsMap V) (k : nat) : option V :=
  match m with
  | [] => None
  | (k', v) :: m' => if Nat.eqb k' k then Some v else Map_get m' k
  end.

(** [m.values()] *)
Definition Map_values (m : JsMap V) : list V := map snd m.

(** A mutation [f] of the object stored under [k], seen through [m]. *)
Fixpoint Map_alter (f : V -> V) (k : nat) (m : JsMap V) : JsMap V :=
  match m with
  | [] => []
  | (k', v) :: m' =>
      if Nat.eqb k' k then (k', f v) :: m' else (k', v) :: Map_alter f k m'
  end.
End JsMap.

(** ** Data model *)

Record GraphQLParams := {
  query : option string;
  operationName : option string
}.

(** A [YogaInitialContext]: its identity as a [Map] key, the identity of its
    [Request], and the parameters of the operation. *)
Record YogaInitialContext := {
  identity : nat;
  request : nat;
  params : GraphQLParams
}.

Inductive ResultProcessorInput :=
| ExecutionResult
| ExecutionResults (n : nat)
| AsyncIterableResult.

Definition isAsyncIterable (result : ResultProcessorInput) : bool :=
  match result with
  | AsyncIterableResult => true
  | _ => false
  end.

Section DataModel.
Context {Trace : Type}.

Record ApolloUsageReportGraphqlContext := {
  operationKey : option string;
  schemaId : option string;
  trace : Trace
}.

Record ApolloUsageReportRequestContext := {
  traces : JsMap ApolloUsageReportGraphqlContext
}.

(** A value of [Report['tracesPerQuery']]: the plugin uses its [trace]
    field, which the type allows to be absent. *)
Record TracesAndStats := { tas_trace : option (list Trace) }.

(** The object given to [Report.encode]. The header is the object literal
    as written: its fields in order, each a [string | undefined]. *)
Record Report := {
  header : list (string * option string);
  operationCount : N;
  tracesPerQuery : JsObject TracesAndStats
}.
End DataModel.
Arguments ApolloUsageReportGraphqlContext : clear implicits.
Arguments ApolloUsageReportRequestContext : clear implicits.
Arguments TracesAndStats : clear implicits.
Arguments Report : clear implicits.

(** ** Imported functions *)

Class GraphQLJS := {
  GraphQLSchema : Type;
  printSchema : GraphQLSchema -> string;
  (** throws a [GraphQLError] on a source that does not lex *)
  stripIgnoredCharacters : string -> completion string
}.

Class ReportEncoder (Trace : Type) := {
  (** [Report.encode(report).finish()] *)
  Report_encode : Report Trace -> completion (list byte)
}.

(** ** sendTrace *)

(** The async function [sendTrace], stopped at an [await] or settled. The
    promise awaited is kept by what it settles with. *)
Inductive SendTrace :=
| AwaitFetch (logger : YogaLogger) (request : HttpRequest) (response : Promise Response)
| AwaitText (logger : YogaLogger) (response : Response)
| Settled (result : completion unit).

Section SendTrace.
Context {Trace : Type} `{!ReportEncoder Trace}.

(** The object that [sendTrace] gives to [Report.encode]. *)
Definition encoded_report (g : GlobalThis) (options : ApolloUsageReportOptions)
    (schemaId : string) (tracesPerQuery : JsObject (TracesAndStats Trace)) : Report Trace :=
  let graphRef := destructuring_default (graphRef options) (getEnvVar g "APOLLO_GRAPH_REF" None) in
  {| header := [("graphRef", graphRef); ("executableSchemaId", Some schemaId)];
     operationCount := 1;
     tracesPerQuery := tracesPerQuery |}.

(** From the call to the first [await]: the log entries written and where
    the function stands. *)
Definition sendTrace (g : GlobalThis) (options : ApolloUsageReportOptions)
    (logger : YogaLogger) (fetchAPI : FetchAPI) (schemaId : string)
    (tracesPerQuery : JsObject (TracesAndStats Trace)) : list LogEntry * SendTrace :=
  let apiKey := destructuring_default (apiKey options) (getEnvVar g "APOLLO_KEY" None) in
  let endpoint := default DEFAULT_REPORTING_ENDPOINT (endpoint options) in
  match Report_encode (encoded_report g options schemaId tracesPerQuery) with
  | Throw err => ([logger error [MStr "Failed to send trace:"; MErr err]], Settled (Normal tt))
  | Normal body =>
      let request :=
        {| url := endpoint;
           method := "POST";
           headers := [("content-type", Some "application/protobuf");
                       ("x-api-key", apiKey);
                       ("accept", Some "application/json")];
           body := body |} in
      ([], AwaitFetch logger request (fetch fetchAPI request))
  end.
End SendTrace.

(** The promise awaited settles and the function runs to its next [await] or
    to its end. *)
Definition sendTrace_resume (t : SendTrace) : list LogEntry * SendTrace :=
  match t with
  | AwaitFetch logger _ (Throw err) =>
      ([logger error [MStr "Failed to send trace:"; MErr err]], Settled (Normal tt))
  | AwaitFetch logger _ (Normal response) => ([], AwaitText logger response)
  | AwaitText logger response =>
      match text response with
      | Throw err =>
          ([logger error [MStr "Failed to send trace:"; MErr err]], Settled (Normal tt))
      | Normal body =>
          if ok response then
            ([logger debug [MStr "Traces sent:"; MStr body]], Settled (Normal tt))
          else
            ([logger error [MStr "Failed to send trace:"; MStr body]], Settled (Normal tt))
      end
  | Settled result => ([], Settled result)
  end.

(** The calls of [fetch] a stopped [sendTrace] has made. *)
Definition fetch_calls (t : SendTrace) : list HttpRequest :=
  match t with
  | AwaitFetch _ request _ => [request]
  | _ => []
  end.

(** ** The world of the plugin *)

Section Plugin.
Context `{GraphQLJS} {Trace : Type} `{!ReportEncoder Trace}.

(** The variable [schemaId] of the closure, the [hashSHA256] promises whose
    [then] callback has not run yet, the [WeakMap] of the instrumentation,
    the calls made on the host's logger, the [fetch] calls made, and the
    promises given to [serverContext.waitUntil]. *)
Record State := {
  st_schemaId : option string;
  st_hashing : list (Promise string);
  st_ctxForReq : gmap nat (ApolloUsageReportRequestContext Trace);
  st_console : list LogEntry;
  st_network : list HttpRequest;
  st_waitUntil : list SendTrace
}.

(** The world when [useApolloUsageReport] returns. *)
Definition init (ctxForReq : gmap nat (ApolloUsageReportRequestContext Trace)) : State :=
  {| st_schemaId := None; st_hashing := []; st_ctxForReq := ctxForReq;
     st_console := []; st_network := []; st_waitUntil := [] |}.

Definition set_schemaId (id : option string) (st : State) : State :=
  {| st_schemaId := id; st_hashing := st_hashing st; st_ctxForReq := st_ctxForReq st;
     st_console := st_console st; st_network := st_network st;
     st_waitUntil := st_waitUntil st |}.

Definition set_hashing (h : list (Promise string)) (st : State) : State :=
  {| st_schemaId := st_schemaId st; st_hashing := h; st_ctxForReq := st_ctxForReq st;
     st_console := st_console st; st_network := st_network st;
     st_waitUntil := st_waitUntil st |}.

Definition set_ctxForReq (m : gmap nat (ApolloUsageReportRequestContext Trace)) (st : State)
  : State :=
  {| st_schemaId := st_schemaId st; st_hashing := st_hashing st; st_ctxForReq := m;
     st_console := st_console st; st_network := st_network st;
     st_waitUntil := st_waitUntil st |}.

(** A call of a logger method. *)
Definition log (entry : LogEntry) (st : State) : State :=
  {| st_schemaId := st_schemaId st; st_hashing := st_hashing st;
     st_ctxForReq := st_ctxForReq st; st_console := st_console st ++ [entry];
     st_network := st_network st; st_waitUntil := st_waitUntil st |}.

(** [serverContext.waitUntil(sendTrace(...))]: the call of [sendTrace] runs
    to its first [await], and the promise it returns is handed over. *)
Definition waitUntil (call : list LogEntry * SendTrace) (st : State) : State :=
  {| st_schemaId := st_schemaId st; st_hashing := st_hashing st;
     st_ctxForReq := st_ctxForReq st; st_console := st_console st ++ fst call;
     st_network := st_network st ++ fetch_calls (snd call);
     st_waitUntil := st_waitUntil st ++ [snd call] |}.

(** *** onSchemaChange *)

Definition onSchemaChange (g : GlobalThis) (schema : option GraphQLSchema) (st : State)
  : completion unit * State :=
  match schema with
  | Some schema =>
      (Normal tt, set_hashing (st_hashing st ++ [hashSHA256 (printSchema schema) g]) st)
  | None => (Normal tt, st)
  end.

(** The [i]-th pending [hashSHA256] promise settles: when fulfilled, its
    [then] callback assigns [schemaId]; a rejection has no handler. *)
Definition hash_settles (i : nat) (st : State) : State :=
  match st_hashing st !! i with
  | Some (Normal id) => set_schemaId (Some id) (set_hashing (delete i (st_hashing st)) st)
  | Some (Throw _) => set_hashing (delete i (st_hashing st)) st
  | None => st
  end.

(** *** onEnveloped *)

Definition not_traced : list Msg :=
  [MStr "operation tracing context not found, this operation will not be traced."].

(** [ctxForReq.get(context.request)?.traces.get(context)] *)
Definition trace_context (st : State) (context : YogaInitialContext)
  : option (ApolloUsageReportGraphqlContext Trace) :=
  match st_ctxForReq st !! request context with
  | Some reqCtx => Map_get (traces reqCtx) (identity context)
  | None => None
  end.

(** [context.params.query ? stripIgnoredCharacters(context.params.query) : ''] *)
Definition signature_of (p : GraphQLParams) : completion string :=
  if truthy (query p) then stripIgnoredCharacters (default "" (query p))
  else Normal "".

(** [`# ${context.params.operationName || '-'}\n${signature}`] *)
Definition operationKey_of (p : GraphQLParams) (signature : string) : string :=
  "# " +:+ default "" (js_or (operationName p) (Some "-")) +:+ LF +:+ signature.

(** The two assignments to the fields of [ctx]. *)
Definition stamp (key : string) (id : option string)
    (ctx : ApolloUsageReportGraphqlContext Trace) : ApolloUsageReportGraphqlContext Trace :=
  {| operationKey := Some key; schemaId := id; trace := trace ctx |}.

Definition onEnveloped (a : Assigned) (context : option YogaInitialContext) (st : State)
  : completion unit * State :=
  match context with
  | None => (Normal tt, st)
  | Some context =>
      match trace_context st context with
      | None => (Normal tt, log (logger a debug not_traced) st)
      | Some _ =>
          match signature_of (params context) with
          | Throw e => (Throw e, st)
          | Normal signature =>
              let key := operationKey_of (params context) signature in
              (Normal tt,
               set_ctxForReq
                 (alter
                    (fun reqCtx =>
                       {| traces :=
                            Map_alter (stamp key (st_schemaId st)) (identity context)
                              (traces reqCtx) |})
                    (request context) (st_ctxForReq st))
                 st)
          end
      end
  end.

(** *** onResultProcess *)

Definition misformed_trace : JsError :=
  {| err_class := TypeErrorC;
     err_message := "Misformed trace, missing operation key or schema id" |}.

(** [o.trace?.push(t)] *)
Definition push_trace (t : Trace) (o : TracesAndStats Trace) : TracesAndStats Trace :=
  {| tas_trace := match tas_trace o with Some l => Some (l ++ [t]) | None => None end |}.

(** The first loop of [onResultProcess], over [reqCtx.traces.values()]. *)
Fixpoint group_traces (values : list (ApolloUsageReportGraphqlContext Trace))
    (tracesPerSchema : JsObject (JsObject (TracesAndStats Trace)))
  : completion (JsObject (JsObject (TracesAndStats Trace))) :=
  match values with
  | [] => Normal tracesPerSchema
  | tr :: rest =>
      if negb (truthy (schemaId tr)) || negb (truthy (operationKey tr)) then
        Throw misformed_trace
      else
        let sid := default "" (schemaId tr) in
        let key := default "" (operationKey tr) in
        let t1 := obj_or_assign tracesPerSchema sid [] in
        let t2 := obj_alter (fun q => obj_or_assign q key {| tas_trace := Some [] |}) sid t1 in
        let t3 := obj_alter (obj_alter (push_trace (trace tr)) key) sid t2 in
        group_traces rest t3
  end.

Definition onResultProcess (g : GlobalThis) (options : ApolloUsageReportOptions)
    (a : Assigned) (request : nat) (result : ResultProcessorInput) (st : State)
  : completion unit * State :=
  if isAsyncIterable result then
    (Normal tt, log (logger a debug [MStr "async iterable results not implemented for now"]) st)
  else
    match st_ctxForReq st !! request with
    | None => (Normal tt, log (logger a debug not_traced) st)
    | Some reqCtx =>
        match group_traces (Map_values (traces reqCtx)) [] with
        | Throw e => (Throw e, st)
        | Normal tracesPerSchema =>
            (Normal tt,
             fold_left
               (fun st schemaId =>
                  (* an own key always has its property, see [obj_get_for_in_keys] *)
                  let tracesPerQuery := default [] (obj_get tracesPerSchema schemaId) in
                  waitUntil
                    (sendTrace g options (logger a) (fetchAPI a) schemaId tracesPerQuery) st)
               (for_in_keys tracesPerSchema) st)
        end
    end.

(** *** Runs of the plugin *)

(** The [i]-th promise given to [waitUntil] goes on after its [await]. *)
Definition task_resumes (i : nat) (st : State) : State :=
  match st_waitUntil st !! i with
  | Some t =>
      {| st_schemaId := st_schemaId st; st_hashing := st_hashing st;
         st_ctxForReq := st_ctxForReq st;
         st_console := st_console st ++ fst (sendTrace_resume t);
         st_network := st_network st;
         st_waitUntil := <[i := snd (sendTrace_resume t)]> (st_waitUntil st) |}
  | None => st
  end.

(** What happens to an initialised plugin: the host calls a hook, or the
    event loop runs the continuation of a promise. *)
Inductive Event :=
| SchemaChange (schema : option GraphQLSchema)
| HashSettles (i : nat)
| Enveloped (context : option YogaInitialContext)
| ResultProcess (request : nat) (result : ResultProcessorInput)
| TaskResumes (i : nat).

Section Run.
Variables (g : GlobalThis) (options : ApolloUsageReportOptions) (a : Assigned).

Definition step (e : Event) (st : State) : completion unit * State :=
  match e with
  | SchemaChange schema => onSchemaChange g schema st
  | HashSettles i => (Normal tt, hash_settles i st)
  | Enveloped context => onEnveloped a context st
  | ResultProcess request result => onResultProcess g options a request result st
  | TaskResumes i => (Normal tt, task_resumes i st)
  end.

(** A hook that throws leaves the world as it was when it threw; the
    host goes on with the next event. *)
Definition run (events : list Event) (st : State) : State :=
  fold_left (fun st e => snd (step e st)) events st.
End Run.
End Plugin.
Arguments State : clear implicits.
Arguments Event {_}.

(** ** Notions used to state the properties *)

Section Notions.
Context {Trace : Type}.

(** What the first loop of [onResultProcess] does with one record that
    passed its check. *)
Definition group_one (tr : ApolloUsageReportGraphqlContext Trace)
    (tracesPerSchema : JsObject (JsObject (TracesAndStats Trace)))
  : JsObject (JsObject (TracesAndStats Trace)) :=
  let sid := default "" (schemaId tr) in
  let key := default "" (operationKey tr) in
  let t1 := obj_or_assign tracesPerSchema sid [] in
  let t2 := obj_alter (fun q => obj_or_assign q key {| tas_trace := Some [] |}) sid t1 in
  obj_alter (obj_alter (push_trace (trace tr)) key) sid t2.

(** A record that has both its schema id and its operation key. *)
Definition populated (tr : ApolloUsageReportGraphqlContext Trace) : bool :=
  truthy (schemaId tr) && truthy (operationKey tr).

(** The key names a property that every object literal inherits from
    [Object.prototype]. *)
Definition inherited_key (k : string) : bool :=
  existsb (String.eqb k) Object_prototype_names.

(** A record that has both its schema id and its operation key, neither
    being the name of an inherited property: the records that the objects of
    the first loop of [onResultProcess] hold as own properties. *)
Definition groupable (tr : ApolloUsageReportGraphqlContext Trace) : bool :=
  populated tr
  && negb (inherited_key (default "" (schemaId tr)))
  && negb (inherited_key (default "" (operationKey tr))).

(** The payloads of the records stamped with schema id [sid] and operation
    key [key], in the order of the records. *)
Definition payloads (sid key : string) (values : list (ApolloUsageReportGraphqlContext Trace))
  : list Trace :=
  map trace
    (filter (fun tr => schemaId tr = Some sid /\ operationKey tr = Some key) values).

(** The schema ids of the records, in the order of the records. *)
Definition schema_ids (values : list (ApolloUsageReportGraphqlContext Trace)) : list string :=
  map (fun tr => default "" (schemaId tr)) values.

(** [tracesPerSchema[sid][key]] *)
Definition cell (t : JsObject (JsObject (TracesAndStats Trace))) (sid key : string)
  : option (TracesAndStats Trace) :=
  match obj_get t sid with
  | Some q => obj_get q key
  | None => None
  end.

(** All the payloads held by a [tracesPerQuery] object, and by a
    [tracesPerSchema] object. *)
Definition traces_of (q : JsObject (TracesAndStats Trace)) : list Trace :=
  concat (map (fun kv => default [] (tas_trace (snd kv))) q).

Definition all_traces (t : JsObject (JsObject (TracesAndStats Trace))) : list Trace :=
  concat (map (fun sq => traces_of (snd sq)) t).

(** Every list of payloads of the object is there ([{trace: []}] is what the
    loop creates), so that [trace?.push] always pushes. *)
Definition cells_ok (t : JsObject (JsObject (TracesAndStats Trace))) : Prop :=
  forall s k o, cell t s k = Some o -> is_Some (tas_trace o).

(** No [tracesPerQuery] object of [t] has two properties of the same name. *)
Definition inner_keys_ok (t : JsObject (JsObject (TracesAndStats Trace))) : Prop :=
  forall s q, obj_get t s = Some q -> NoDup (map fst q).

(** The keys of an object after [o[k] ||= v]. *)
Definition add_key (ks : list string) (k : string) : list string :=
  if decide (k ∈ ks) then ks else ks ++ [k].
End Notions.

(** The characters of a string are all hexadecimal digits in lower case. *)
Definition is_hex_digit (c : ascii) : bool :=
  let n := nat_of_ascii c in
  ((48 <=? n) && (n <=? 57) || (97 <=? n) && (n <=? 102))%nat.

Fixpoint all_hex (s : string) : bool :=
  match s with
  | EmptyString => true
  | String c s' => is_hex_digit c && all_hex s'
  end.

(** A complete run of [sendTrace]: the call and the two continuations, with
    the log entries written, the [fetch] calls made, and where it ends. *)
Definition sendTrace_run (call : list LogEntry * SendTrace)
  : list LogEntry * list HttpRequest * SendTrace :=
  let r1 := sendTrace_resume (snd call) in
  let r2 := sendTrace_resume (snd r1) in
  (fst call ++ fst r1 ++ fst r2,
   fetch_calls (snd call) ++ fetch_calls (snd r1) ++ fetch_calls (snd r2),
   snd r2).

(** A [sendTrace] that stands at [await fetch(...)]. *)
Definition awaits_fetch (t : SendTrace) : Prop :=
  match t with
  | AwaitFetch _ _ _ => True
  | _ => False
  end.

(** An event that is the envelope step of the operation of [context]. *)
Definition envelops `{GraphQLJS} (context : YogaInitialContext) (e : Event) : Prop :=
  match e with
  | Enveloped (Some c) => request c = request context /\ identity c = identity context
  | _ => False
  end.


(** An event that is the settlement of a schema hash. *)
Definition settles_hash `{GraphQLJS} (e : Event) : Prop :=
  match e with
  | HashSettles _ => True
  | _ => False
  end.

(** ** Further notions *)

(** The credential [name] can be had, from the environment or from the
    option, as a string that is not empty. *)
Definition available (g : GlobalThis) (name : string) (option : option string) : Prop :=
  exists s, s <> "" /\ (process_env g name = Some s \/ option = Some s).

(** The value of a hexadecimal digit in lower case. *)
Definition hex_value (c : ascii) : option N :=
  let n := nat_of_ascii c in
  if (48 <=? n)%nat && (n <=? 57)%nat then Some (N.of_nat (n - 48))
  else if (97 <=? n)%nat && (n <=? 102)%nat then Some (N.of_nat (n - 87))
  else None.

(** The bytes that a string of pairs of hexadecimal digits stands for: the
    inverse of the loop of [hashSHA256]. *)
Fixpoint bytes_of_hex (s : string) : option (list byte) :=
  match s with
  | EmptyString => Some []
  | String hi (String lo s') =>
      match hex_value hi, hex_value lo, bytes_of_hex s' with
      | Some h, Some l, Some bs =>
          match Byte.of_N (h * 16 + l) with
          | Some b => Some (b :: bs)
          | None => None
          end
      | _, _, _ => None
      end
  | String _ EmptyString => None
  end.

(** The calls of [sendTrace] that [onResultProcess] makes for a request, in
    order, as they stand when the hook returns: none when the result is an
    async iterable, when the request has no trace contexts or when the first
    loop throws. *)
Definition dispatch_calls {Trace : Type} `{!ReportEncoder Trace} (g : GlobalThis)
    (options : ApolloUsageReportOptions) (a : Assigned) (request : nat)
    (result : ResultProcessorInput)
    (ctxForReq : gmap nat (ApolloUsageReportRequestContext Trace))
  : list (list LogEntry * SendTrace) :=
  if isAsyncIterable result then []
  else
    match ctxForReq !! request with
    | None => []
    | Some reqCtx =>
        match group_traces (Map_values (traces reqCtx)) [] with
        | Throw _ => []
        | Normal tracesPerSchema =>
            map (fun schemaId =>
                   sendTrace g options (logger a) (fetchAPI a) schemaId
                     (default [] (obj_get tracesPerSchema schemaId)))
              (for_in_keys tracesPerSchema)
        end
    end.

(** The identities and the payloads of the trace records of every request,
    in order: what the instrumentation put in its [WeakMap]. *)
Definition records_of {Trace : Type} (m : gmap nat (ApolloUsageReportRequestContext Trace))
  : gmap nat (list (nat * Trace)) :=
  (fun reqCtx => map (fun kv => (fst kv, trace (snd kv))) (traces reqCtx)) <$> m.

(** A run of [sendTrace] that delivers: [fetch] is fulfilled with a response
    whose status is in 200-299 and whose body can be read. *)
Definition delivered (call : list LogEntry * SendTrace) : Prop :=
  exists logger request response answer,
    snd call = AwaitFetch logger request (Normal response)
    /\ ok response = true /\ text response = Normal answer.

(** The request that [sendTrace] makes for a report, but for its body. *)
Definition report_request (g : GlobalThis) (options : ApolloUsageReportOptions)
    (r : HttpRequest) : Prop :=
  method r = "POST"
  /\ url r = default DEFAULT_REPORTING_ENDPOINT (endpoint options)
  /\ headers r
     = [("content-type", Some "application/protobuf");
        ("x-api-key", destructuring_default (apiKey options) (getEnvVar g "APOLLO_KEY" None));
        ("accept", Some "application/json")].

(** A promise of [sendTrace] as the plugin makes them: it logs with the
    logger of the plugin, its request is a report request, and when it is
    settled it is fulfilled. *)
Definition plugin_task (g : GlobalThis) (options : ApolloUsageReportOptions) (a : Assigned)
    (t : SendTrace) : Prop :=
  match t with
  | AwaitFetch lg request _ => lg = logger a /\ report_request g options request
  | AwaitText lg _ => lg = logger a
  | Settled result => result = Normal tt
  end.

(** What holds of the promises, the requests and the log of the plugin. *)
Definition background_ok {Trace : Type} (g : GlobalThis) (options : ApolloUsageReportOptions)
    (a : Assigned) (st : State Trace) : Prop :=
  Forall (plugin_task g options a) (st_waitUntil st)
  /\ Forall (report_request g options) (st_network st)
  /\ Forall (fun entry => exists level msgs, entry = logger a level msgs) (st_console st)
  /\ length (st_network st) <= length (st_waitUntil st).

(** A record whose schema id, if any, is made of hexadecimal digits and whose
    operation key, if any, is not the name of an inherited property. *)
Definition record_ok {Trace : Type} (tr : ApolloUsageReportGraphqlContext Trace) : Prop :=
  (forall id, schemaId tr = Some id -> all_hex id = true)
  /\ (forall key, operationKey tr = Some key -> inherited_key key = false).

(** What holds of the schema ids of the plugin: those stored, those being
    computed and those stamped are made of hexadecimal digits. *)
Definition ids_ok {Trace : Type} (st : State Trace) : Prop :=
  (forall id, st_schemaId st = Some id -> all_hex id = true)
  /\ Forall (fun p => forall id, p = Normal id -> all_hex id = true) (st_hashing st)
  /\ (forall r reqCtx, st_ctxForReq st !! r = Some reqCtx ->
        Forall (fun kv => record_ok (snd kv)) (traces reqCtx)).

(** ** A small host, to run the plugin on *)

Module SmallHost.
Definition is_ignored (c : ascii) : bool :=
  match nat_of_ascii c with
  | 9 | 10 | 13 | 32 | 44 => true
  | _ => false
  end.

Definition is_name_char (c : ascii) : bool :=
  let n := nat_of_ascii c in
  ((48 <=? n) && (n <=? 57) || (65 <=? n) && (n <=? 90)
   || (97 <=? n) && (n <=? 122) || (n =? 95))%nat.

(** A stand-in for [stripIgnoredCharacters] on documents made of names and
    punctuators: white space and commas go, but for one space between two
    names. *)
Fixpoint strip (s : string) (prev : option ascii) (gap : bool) : string :=
  match s with
  | EmptyString => EmptyString
  | String c s' =>
      if is_ignored c then strip s' prev true
      else
        let rest := String c (strip s' (Some c) false) in
        match prev with
        | Some p => if gap && is_name_char p && is_name_char c then String " " rest else rest
        | None => rest
        end
  end.

(** A schema is given by its printed form. *)
#[export] Instance graphql : GraphQLJS :=
  {| GraphQLSchema := string;
     printSchema := fun s => s;
     stripIgnoredCharacters := fun s => Normal (strip s None false) |}.

Definition bytes_of (s : string) : list byte := list_byte_of_string s.

(** A stand-in for the encoder: the bytes of the schema id of the header
    and of the operation keys. *)
#[export] Instance encoder : ReportEncoder nat :=
  {| Report_encode := fun r =>
       Normal (bytes_of (String.concat ";" (map (fun f => default "" (snd f)) (header r)
                                             ++ map fst (tracesPerQuery r)))) |}.

(** A stand-in for [crypto.subtle.digest]: 32 bytes taken from the input. *)
Definition digest32 (algorithm : string) (data : list byte) : Promise (list byte) :=
  Normal (take 32 (data ++ replicate 32 x00)).

Definition node (vars : list (string * string)) : GlobalThis :=
  {| process := Some {| env := Some (list_to_map vars) |};
     subtle_digest := digest32;
     TextEncoder_encode := bytes_of |}.

Definition host_logger : YogaLogger := fun level messages => (level, messages).

(** A collector that answers every report with the given status and body. *)
Definition collector (code : nat) (answer : string) : FetchAPI :=
  {| fetch := fun _ => Normal {| status := code; text := Normal answer |} |}.

Definition unreachable : FetchAPI :=
  {| fetch := fun _ =>
       Throw {| err_class := TypeErrorC; err_message := "fetch failed" |} |}.

Definition yoga (f : FetchAPI) : Yoga := {| yoga_fetchAPI := f; yoga_logger := host_logger |}.

Definition options : ApolloUsageReportOptions :=
  {| graphRef := Some "my-graph@prod"; apiKey := Some "service:key"; endpoint := None |}.

Definition assigned (f : FetchAPI) : Assigned := fst (onYogaInit (node []) options (yoga f)).

Definition GetUser : YogaInitialContext :=
  {| identity := 1; request := 7;
     params := {| query := Some "query GetUser { user { id } }";
                  operationName := Some "GetUser" |} |}.

Definition GetPosts : YogaInitialContext :=
  {| identity := 2; request := 7;
     params := {| query := Some "query GetPosts { posts { id, title } }";
                  operationName := Some "GetPosts" |} |}.

Definition untouched (payload : nat) : ApolloUsageReportGraphqlContext nat :=
  {| operationKey := None; schemaId := None; trace := payload |}.

(** Request 7 is a batch of two operations, as the instrumentation leaves
    them. *)
Definition batch : gmap nat (ApolloUsageReportRequestContext nat) :=
  {[ 7 := {| traces := [(1, untouched 100); (2, untouched 200)] |} ]}.

Definition schema1 : string := "type Query { user: User }".

Definition key_GetUser : string := operationKey_of (params GetUser) "query GetUser{user{id}}".
Definition key_GetPosts : string :=
  operationKey_of (params GetPosts) "query GetPosts{posts{id title}}".

Definition stamped (key sid : string) (payload : nat) : ApolloUsageReportGraphqlContext nat :=
  {| operationKey := Some key; schemaId := Some sid; trace := payload |}.

(** Three operations of one request, stamped under one schema; two of them
    are the same operation. *)
Definition one_schema : ApolloUsageReportRequestContext nat :=
  {| traces := [(1, stamped key_GetUser "abc123" 100);
                (2, stamped key_GetPosts "abc123" 200);
                (3, stamped key_GetUser "abc123" 300)] |}.

(** The same, the schema having changed before the second operation. *)
Definition two_schemas : ApolloUsageReportRequestContext nat :=
  {| traces := [(1, stamped key_GetUser "abc123" 100);
                (2, stamped key_GetPosts "def456" 200);
                (3, stamped key_GetUser "abc123" 300)] |}.

(** One of the operations was not stamped. *)
Definition one_unstamped : ApolloUsageReportRequestContext nat :=
  {| traces := [(1, stamped key_GetUser "abc123" 100); (2, untouched 200)] |}.

(** A world in which request 7 has the trace contexts [r]. *)
Definition serving (r : ApolloUsageReportRequestContext nat) : State nat :=
  {| st_schemaId := Some "abc123"; st_hashing := []; st_ctxForReq := {[ 7 := r ]};
     st_console := []; st_network := []; st_waitUntil := [] |}.


(** Node with both credentials in the environment, and options that give
    other ones. *)
Definition node_with_credentials : GlobalThis :=
  node [("APOLLO_KEY", "env:key"); ("APOLLO_GRAPH_REF", "env-graph@prod")].

(** A runtime without [process]. *)
Definition browser : GlobalThis :=
  {| process := None; subtle_digest := digest32; TextEncoder_encode := bytes_of |}.

(** A runtime whose [crypto.subtle.digest] always rejects. *)
Definition node_without_digest : GlobalThis :=
  {| process := Some {| env := Some ∅ |};
     subtle_digest := fun _ _ =>
       Throw {| err_class := HostErrorC; err_message := "Unrecognized algorithm name" |};
     TextEncoder_encode := bytes_of |}.

Definition has_question_mark (s : string) : bool :=
  existsb (fun c => Ascii.eqb c "?") (list_ascii_of_string s).

(** A stand-in for [stripIgnoredCharacters] that, as the lexer of [graphql]
    does, throws on the character [?]. *)
Definition strict_graphql : GraphQLJS :=
  {| GraphQLSchema := string;
     printSchema := fun s => s;
     stripIgnoredCharacters := fun s =>
       if has_question_mark s then
         Throw {| err_class := GraphQLErrorC;
                  err_message := "Syntax Error: Unexpected character: ?" |}
       else Normal (strip s None false) |}.

(** An encoder that rejects every report. *)
Definition failing_encoder : ReportEncoder nat :=
  {| Report_encode := fun _ =>
       Throw {| err_class := ErrorC; err_message := "invalid report" |} |}.

(** The first operation of the batch, with a query that does not lex. *)
Definition Broken : YogaInitialContext :=
  {| identity := 1; request := 7;
     params := {| query := Some "query { user(id: ?) }"; operationName := None |} |}.

(** A whole request under one schema, up to the processing of its result. *)
Definition served : list (@Event graphql) :=
  [SchemaChange (Some schema1); HashSettles 0;
   Enveloped (Some GetUser); Enveloped (Some GetPosts);
   ResultProcess 7 ExecutionResult].
End SmallHost.

(** * Properties *)

#[local] Set Warnings "-clear-no-such-hyp".

(** ** Objects and maps *)

Section JsObjectFacts.
Context {V : Type}.
Implicit Types (o : JsObject V) (k : string) (v : V).

Lemma obj_get_None o k : obj_get o k = None <-> k ∉ map fst o.
Proof.
  induction o as [|[k' v'] o IH]; simpl.
  - split; [intros _; apply not_elem_of_nil | done].
  - destruct (String.eqb_spec k' k) as [->|Hne].
    + split; [done | intros Hn; exfalso; apply Hn; left].
    + rewrite IH, not_elem_of_cons. naive_solver.
Qed.

Lemma obj_get_Some_keys o k v : obj_get o k = Some v -> k ∈ map fst o.
Proof.
  intros Hg. destruct (decide (k ∈ map fst o)) as [|Hn]; [done|].
  apply obj_get_None in Hn. congruence.
Qed.

Lemma obj_get_Some_elem o k v : obj_get o k = Some v -> (k, v) ∈ o.
Proof.
  induction o as [|[k' v'] o IH]; simpl; [done|].
  destruct (String.eqb_spec k' k) as [->|Hne].
  - intros [= ->]. left.
  - intros Hg. right. auto.
Qed.

Lemma obj_set_absent o k v : obj_get o k = None -> obj_set o k v = o ++ [(k, v)].
Proof.
  induction o as [|[k' v'] o IH]; simpl; [done|].
  destruct (String.eqb_spec k' k); [done|]. intros Hg. by rewrite IH.
Qed.

Lemma obj_get_app o o' k :
  obj_get (o ++ o') k = match obj_get o k with Some v => Some v | None => obj_get o' k end.
Proof.
  induction o as [|[k' v'] o IH]; simpl; [done|].
  by destruct (String.eqb k' k).
Qed.

Lemma obj_get_or_assign_eq o k v :
  obj_get (obj_or_assign o k v) k = Some (default v (obj_get o k)).
Proof.
  unfold obj_or_assign. destruct (obj_get o k) as [v'|] eqn:Hg; simpl; [done|].
  rewrite obj_set_absent, obj_get_app, Hg by done. simpl. by rewrite String.eqb_refl.
Qed.

Lemma obj_get_or_assign_ne o k k' v :
  k <> k' -> obj_get (obj_or_assign o k v) k' = obj_get o k'.
Proof.
  intros Hne. unfold obj_or_assign. destruct (obj_get o k) eqn:Hg; [done|].
  rewrite obj_set_absent, obj_get_app by done. simpl.
  destruct (String.eqb_spec k k'); [done|]. by destruct (obj_get o k').
Qed.

Lemma obj_keys_or_assign o k v : map fst (obj_or_assign o k v) = add_key (map fst o) k.
Proof.
  unfold obj_or_assign, add_key. destruct (obj_get o k) eqn:Hg.
  - apply obj_get_Some_keys in Hg. by rewrite decide_True.
  - rewrite obj_set_absent by done. apply obj_get_None in Hg.
    rewrite decide_False by done. by rewrite map_app.
Qed.

Lemma obj_get_alter_eq (f : V -> V) o k : obj_get (obj_alter f k o) k = f <$> obj_get o k.
Proof.
  induction o as [|[k' v'] o IH]; simpl; [done|].
  destruct (String.eqb_spec k' k) as [->|Hne]; simpl.
  - by rewrite String.eqb_refl.
  - by destruct (String.eqb_spec k' k).
Qed.

Lemma obj_get_alter_ne (f : V -> V) o k k' :
  k <> k' -> obj_get (obj_alter f k o) k' = obj_get o k'.
Proof.
  intros Hne. induction o as [|[k0 v0] o IH]; simpl; [done|].
  destruct (String.eqb_spec k0 k) as [->|Hne0]; simpl.
  - by destruct (String.eqb_spec k k').
  - by rewrite IH.
Qed.

Lemma obj_keys_alter (f : V -> V) o k : map fst (obj_alter f k o) = map fst o.
Proof.
  induction o as [|[k' v'] o IH]; simpl; [done|].
  destruct (String.eqb k' k); simpl; by rewrite ?IH.
Qed.

Lemma Forall_obj_or_assign (P : string * V -> Prop) o k v :
  Forall P o -> P (k, v) -> Forall P (obj_or_assign o k v).
Proof.
  intros Ho Hv. unfold obj_or_assign. destruct (obj_get o k) eqn:Hg; [done|].
  rewrite obj_set_absent by done. apply Forall_app. split; [done|]. by constructor.
Qed.

Lemma Forall_obj_alter (P : V -> Prop) (f : V -> V) o k :
  Forall (fun kv => P (snd kv)) o -> (forall v, P v -> P (f v)) ->
  Forall (fun kv => P (snd kv)) (obj_alter f k o).
Proof.
  intros Ho Hf. induction Ho as [|[k' v'] o Hv Ho IH]; simpl; [constructor|].
  destruct (String.eqb k' k); constructor; simpl in *; auto.
Qed.
End JsObjectFacts.

Lemma add_key_NoDup ks k : NoDup ks -> NoDup (add_key ks k).
Proof.
  intros Hnd. unfold add_key. case_decide; [done|].
  apply NoDup_app. split_and!; [done | | apply NoDup_singleton].
  intros x Hx ->%list_elem_of_singleton. done.
Qed.

Lemma elem_of_add_key ks k x : x ∈ add_key ks k <-> x ∈ ks \/ x = k.
Proof.
  unfold add_key. case_decide.
  - naive_solver.
  - rewrite elem_of_app, list_elem_of_singleton. done.
Qed.

Lemma foldl_add_key_NoDup l ks : NoDup ks -> NoDup (foldl add_key ks l).
Proof.
  revert ks. induction l as [|k l IH]; intros ks Hnd; simpl; [done|].
  apply IH. by apply add_key_NoDup.
Qed.

Lemma elem_of_foldl_add_key l ks x : x ∈ foldl add_key ks l <-> x ∈ ks \/ x ∈ l.
Proof.
  revert ks. induction l as [|k l IH]; intros ks; simpl.
  - rewrite elem_of_nil. naive_solver.
  - rewrite IH, elem_of_add_key, elem_of_cons. naive_solver.
Qed.

(** The keys created from nothing, for a list of ids: the distinct ids. *)
Lemma foldl_add_key_distinct l : foldl add_key [] l ≡ₚ remove_dups l.
Proof.
  apply NoDup_Permutation.
  - apply foldl_add_key_NoDup, NoDup_nil_2.
  - apply NoDup_remove_dups.
  - intros x. rewrite elem_of_foldl_add_key, elem_of_remove_dups, elem_of_nil. naive_solver.
Qed.

(** ** The first loop of the dispatcher *)

Section Grouping.
Context {Trace : Type}.
Implicit Types (tr : ApolloUsageReportGraphqlContext Trace).
Implicit Types (t : JsObject (JsObject (TracesAndStats Trace))).
Implicit Types (q : JsObject (TracesAndStats Trace)).

Lemma truthy_Some (v : option string) :
  truthy v = true -> exists s, v = Some s /\ s <> "".
Proof.
  destruct v as [s|]; simpl; [|done]. intros Hs. exists s. split; [done|].
  intros ->. done.
Qed.

Lemma populated_inv tr :
  populated tr = true ->
  exists sid key, schemaId tr = Some sid /\ operationKey tr = Some key /\ sid <> "" /\ key <> "".
Proof.
  unfold populated. intros [Hs Hk]%andb_prop.
  apply truthy_Some in Hs as (sid & ? & ?). apply truthy_Some in Hk as (key & ? & ?).
  by exists sid, key.
Qed.

Lemma group_traces_cons tr rest t :
  populated tr = true -> group_traces (tr :: rest) t = group_traces rest (group_one tr t).
Proof.
  unfold populated. intros [Hs Hk]%andb_prop. simpl. by rewrite Hs, Hk.
Qed.

Lemma group_traces_all values t :
  Forall (fun tr => populated tr = true) values ->
  group_traces values t = Normal (foldl (fun t tr => group_one tr t) t values).
Proof.
  intros Hall. revert t. induction Hall as [|tr rest Htr _ IH]; intros t; [done|].
  rewrite group_traces_cons by done. apply IH.
Qed.

(** One record that lacks its schema id or its operation key makes the loop
    throw, whatever the other records are. *)
Lemma group_traces_misformed values t tr :
  tr ∈ values -> populated tr = false -> group_traces values t = Throw misformed_trace.
Proof.
  intros Hin Hbad. revert t. induction values as [|tr' rest IH]; intros t.
  - by apply elem_of_nil in Hin.
  - destruct (populated tr') eqn:Hp.
    + rewrite group_traces_cons by done. apply IH.
      apply elem_of_cons in Hin as [->|]; [congruence | done].
    + unfold populated in Hp. simpl.
      destruct (truthy (schemaId tr')), (truthy (operationKey tr')); simpl in *; done.
Qed.

Lemma obj_get_group_one tr t s :
  obj_get (group_one tr t) s =
    if decide (s = default "" (schemaId tr)) then
      Some (obj_alter (push_trace (trace tr)) (default "" (operationKey tr))
              (obj_or_assign (default [] (obj_get t s)) (default "" (operationKey tr))
                 {| tas_trace := Some [] |}))
    else obj_get t s.
Proof.
  unfold group_one. case_decide as Hs.
  - subst s. by rewrite !obj_get_alter_eq, obj_get_or_assign_eq.
  - by rewrite !obj_get_alter_ne, obj_get_or_assign_ne.
Qed.

Lemma keys_group_one tr t :
  map fst (group_one tr t) = add_key (map fst t) (default "" (schemaId tr)).
Proof. unfold group_one. by rewrite !obj_keys_alter, obj_keys_or_assign. Qed.

Lemma keys_foldl_group_one values t :
  map fst (foldl (fun t tr => group_one tr t) t values)
  = foldl add_key (map fst t) (schema_ids values).
Proof.
  revert t. induction values as [|tr rest IH]; intros t; simpl; [done|].
  by rewrite IH, keys_group_one.
Qed.

Lemma cell_group_one tr t s k :
  cell (group_one tr t) s k =
    if decide (s = default "" (schemaId tr) /\ k = default "" (operationKey tr)) then
      Some (push_trace (trace tr) (default {| tas_trace := Some [] |} (cell t s k)))
    else cell t s k.
Proof.
  unfold cell. rewrite obj_get_group_one. case_decide as Hs.
  - subst s. destruct (decide (k = default "" (operationKey tr))) as [->|Hk].
    + rewrite decide_True by done.
      rewrite obj_get_alter_eq, obj_get_or_assign_eq. simpl.
      by destruct (obj_get t _).
    + rewrite decide_False by naive_solver.
      rewrite obj_get_alter_ne, obj_get_or_assign_ne by done.
      by destruct (obj_get t _).
  - rewrite decide_False by naive_solver. done.
Qed.

Lemma cells_ok_nil : cells_ok (Trace := Trace) [].
Proof. intros s k o. done. Qed.

Lemma inner_keys_ok_nil : inner_keys_ok (Trace := Trace) [].
Proof. intros s q. done. Qed.

Lemma cells_ok_group_one tr t : cells_ok t -> cells_ok (group_one tr t).
Proof.
  intros Hok s k o. rewrite cell_group_one. case_decide; [|apply Hok].
  intros [= <-]. destruct (cell t s k) as [o'|] eqn:Hc; simpl.
  - destruct (Hok _ _ _ Hc) as [l Hl]. unfold push_trace. rewrite Hl. by eexists.
  - by eexists.
Qed.

Lemma inner_keys_ok_group_one tr t : inner_keys_ok t -> inner_keys_ok (group_one tr t).
Proof.
  intros Hok s q. rewrite obj_get_group_one. case_decide; [|apply Hok].
  intros [= <-]. rewrite obj_keys_alter, obj_keys_or_assign. apply add_key_NoDup.
  destruct (obj_get t s) as [q'|] eqn:Hq; simpl; [by eapply Hok | apply NoDup_nil_2].
Qed.

Lemma foldl_group_one_ok values t :
  cells_ok t -> inner_keys_ok t ->
  cells_ok (foldl (fun t tr => group_one tr t) t values)
  /\ inner_keys_ok (foldl (fun t tr => group_one tr t) t values).
Proof.
  revert t. induction values as [|tr rest IH]; intros t Hc Hk; simpl; [done|].
  apply IH; [by apply cells_ok_group_one | by apply inner_keys_ok_group_one].
Qed.

Lemma payloads_cons s k tr rest :
  payloads s k (tr :: rest) =
    (if decide (schemaId tr = Some s /\ operationKey tr = Some k) then [trace tr] else [])
    ++ payloads s k rest.
Proof.
  unfold payloads. rewrite filter_cons. by case_decide.
Qed.

(** What [tracesPerSchema[s][k]] holds after the loop: the payloads of the
    records stamped [s] and [k], in their order, after what was there. *)
Lemma cell_foldl_group_one values t s k :
  Forall (fun tr => populated tr = true) values -> cells_ok t ->
  cell (foldl (fun t tr => group_one tr t) t values) s k =
    match payloads s k values with
    | [] => cell t s k
    | ps => Some {| tas_trace := Some (default [] (cell t s k ≫= tas_trace) ++ ps) |}
    end.
Proof.
  intros Hall. revert t. induction Hall as [|tr rest Htr _ IH]; intros t Hok; [done|].
  simpl foldl. rewrite IH by (by apply cells_ok_group_one).
  rewrite payloads_cons, cell_group_one.
  destruct (populated_inv _ Htr) as (sid & key & Hs & Hk & _ & _).
  rewrite Hs, Hk. simpl default.
  destruct (decide (s = sid /\ k = key)) as [[-> ->]|Hne].
  - rewrite decide_True by done. simpl.
    assert (exists l, default {| tas_trace := Some [] |} (cell t sid key)
                      = {| tas_trace := Some l |}
                      /\ default [] (cell t sid key ≫= tas_trace) = l) as (l & Hl & Hl').
    { destruct (cell t sid key) as [o|] eqn:Hc; simpl.
      - destruct (Hok _ _ _ Hc) as [l Hl]. exists l. destruct o as [x]. simpl in *.
        by subst x.
      - by exists []. }
    rewrite Hl, Hl'. unfold push_trace. simpl.
    destruct (payloads sid key rest) as [|p ps]; [done|].
    by rewrite <- app_assoc.
  - rewrite decide_False by naive_solver. done.
Qed.
End Grouping.

(** ** The payloads held by the grouped object *)

Section Flatten.
Context {V T : Type} (flat : V -> list T).

Lemma flat_or_assign (o : JsObject V) k v :
  flat v = [] ->
  concat (map (fun kv => flat (snd kv)) (obj_or_assign o k v))
  = concat (map (fun kv => flat (snd kv)) o).
Proof.
  intros Hv. unfold obj_or_assign. destruct (obj_get o k) eqn:Hg; [done|].
  rewrite obj_set_absent by done.
  rewrite map_app, concat_app. simpl. rewrite Hv. by rewrite !app_nil_r.
Qed.

Lemma flat_alter (f : V -> V) (o : JsObject V) k v extra :
  obj_get o k = Some v -> flat (f v) ≡ₚ flat v ++ extra ->
  concat (map (fun kv => flat (snd kv)) (obj_alter f k o))
  ≡ₚ concat (map (fun kv => flat (snd kv)) o) ++ extra.
Proof.
  intros Hg Hf. induction o as [|[k' v'] o IH]; simpl in *; [done|].
  destruct (String.eqb k' k); simpl.
  - injection Hg as ->. rewrite Hf. by rewrite <- !app_assoc, (comm (++) extra).
  - rewrite IH by done. by rewrite app_assoc.
Qed.
End Flatten.

Section AllTraces.
Context {Trace : Type}.
Implicit Types (tr : ApolloUsageReportGraphqlContext Trace).
Implicit Types (t : JsObject (JsObject (TracesAndStats Trace))).

Lemma all_traces_group_one tr t :
  cells_ok t -> all_traces (group_one tr t) ≡ₚ all_traces t ++ [trace tr].
Proof.
  intros Hok. unfold group_one.
  set (sid := default "" (schemaId tr)). set (key := default "" (operationKey tr)).
  set (v0 := {| tas_trace := Some [] |} : TracesAndStats Trace).
  set (q := default [] (obj_get t sid)).
  set (t1 := obj_or_assign t sid []).
  set (t2 := obj_alter (fun q => obj_or_assign q key v0) sid t1).
  assert (obj_get t1 sid = Some q) as H1 by apply obj_get_or_assign_eq.
  assert (all_traces t1 = all_traces t) as E1.
  { unfold all_traces. by apply (flat_or_assign traces_of). }
  assert (all_traces t2 ≡ₚ all_traces t1 ++ []) as E2.
  { unfold all_traces. apply (flat_alter traces_of _ _ sid q []); [done|].
    unfold traces_of.
    rewrite (flat_or_assign (fun o : TracesAndStats Trace => default [] (tas_trace o))) by done.
    by rewrite app_nil_r. }
  assert (obj_get t2 sid = Some (obj_or_assign q key v0)) as H2.
  { unfold t2. by rewrite obj_get_alter_eq, H1. }
  transitivity (all_traces t2 ++ [trace tr]).
  - unfold all_traces.
    apply (flat_alter traces_of _ _ sid (obj_or_assign q key v0)); [done|].
    unfold traces_of.
    apply (flat_alter (fun o : TracesAndStats Trace => default [] (tas_trace o))
             _ _ key (default v0 (obj_get q key))).
    + apply obj_get_or_assign_eq.
    + destruct (obj_get q key) as [o|] eqn:Hq; simpl; [|done].
      assert (cell t sid key = Some o) as Hc.
      { unfold cell. unfold q in Hq. by destruct (obj_get t sid). }
      destruct (Hok _ _ _ Hc) as [l Hl]. by rewrite Hl.
  - by rewrite E2, app_nil_r, E1.
Qed.

Lemma all_traces_foldl_group_one values t :
  cells_ok t ->
  all_traces (foldl (fun t tr => group_one tr t) t values) ≡ₚ all_traces t ++ map trace values.
Proof.
  revert t. induction values as [|tr rest IH]; intros t Hok; simpl.
  - by rewrite app_nil_r.
  - rewrite IH by (by apply cells_ok_group_one).
    rewrite all_traces_group_one by done. by rewrite <- app_assoc.
Qed.
End AllTraces.

(** ** The order of [for ... in] *)

Lemma insert_by_index_perm n k l : insert_by_index n k l ≡ₚ (n, k) :: l.
Proof.
  induction l as [|[m k'] l IH]; simpl; [done|].
  destruct (n <=? m)%N; [done|]. rewrite IH. apply Permutation_swap.
Qed.

Lemma index_string_keys_perm (ks : list string) :
  map snd (index_keys ks) ++ string_keys ks ≡ₚ ks.
Proof.
  induction ks as [|k ks IH]; simpl; [done|].
  destruct (array_index k) as [n|].
  - rewrite (Permutation_map snd (insert_by_index_perm n k (index_keys ks))).
    simpl. by constructor.
  - rewrite <- Permutation_middle. by constructor.
Qed.

(** [for ... in] visits every own key once. *)
Lemma for_in_keys_perm {V : Type} (o : JsObject V) : for_in_keys o ≡ₚ map fst o.
Proof. apply index_string_keys_perm. Qed.

Lemma for_in_keys_singleton {V : Type} (k : string) (v : V) : for_in_keys [(k, v)] = [k].
Proof. unfold for_in_keys. simpl. by destruct (array_index k). Qed.

(** The property read under a key that [for ... in] visits is there. *)
Lemma obj_get_for_in_keys {V : Type} (o : JsObject V) k :
  k ∈ for_in_keys o -> is_Some (obj_get o k).
Proof.
  rewrite for_in_keys_perm. intros Hk.
  destruct (obj_get o k) eqn:Hg; [by eexists|]. by apply obj_get_None in Hg.
Qed.

(** ** The dispatcher *)

Lemma foldl_add_key_same (sid : string) (l : list string) :
  Forall (fun s => s = sid) l -> foldl add_key [sid] l = [sid].
Proof.
  induction 1 as [|s l -> _ IH]; simpl; [done|].
  unfold add_key at 2. rewrite decide_True by left. done.
Qed.

Section Dispatcher.
Context {Trace : Type} `{!ReportEncoder Trace}.
Implicit Types (st : State Trace) (a : Assigned).

Lemma fold_waitUntil (f : string -> list LogEntry * SendTrace) (ks : list string) st :
  let st' := fold_left (fun st k => waitUntil (f k) st) ks st in
  st_waitUntil st' = st_waitUntil st ++ map snd (map f ks)
  /\ st_console st' = st_console st ++ concat (map fst (map f ks))
  /\ st_network st' = st_network st ++ concat (map (fun c => fetch_calls (snd c)) (map f ks))
  /\ st_schemaId st' = st_schemaId st
  /\ st_hashing st' = st_hashing st
  /\ st_ctxForReq st' = st_ctxForReq st.
Proof.
  revert st. induction ks as [|k ks IH]; intros st; simpl.
  - by rewrite !app_nil_r.
  - destruct (IH (waitUntil (f k) st)) as (-> & -> & -> & -> & -> & ->). simpl.
    by rewrite <- !app_assoc.
Qed.

(** What the call of [sendTrace] leaves behind when it returns its promise:
    a function that stands at [await fetch(...)] and has logged nothing, or,
    when the encoder threw, a settled one that has called [fetch] not at all. *)
Lemma sendTrace_call g options lg f sid q :
  (fst (sendTrace g options lg f sid q) = [] /\ awaits_fetch (snd (sendTrace g options lg f sid q)))
  \/ (snd (sendTrace g options lg f sid q) = Settled (Normal tt)).
Proof.
  unfold sendTrace. destruct (Report_encode _); simpl; [by left | by right].
Qed.

(** C5. When the result is an async iterable (a streamed or incremental
    response), [onResultProcess] returns at once: it calls [logger.debug]
    once, gives no promise to [waitUntil] and makes no [fetch] call, whatever
    trace contexts the request has. *)
Theorem dispatch_skips_async_iterable g options a request st :
  onResultProcess g options a request AsyncIterableResult st
  = (Normal tt,
     log (logger a debug [MStr "async iterable results not implemented for now"]) st)
  /\ st_waitUntil (snd (onResultProcess g options a request AsyncIterableResult st))
     = st_waitUntil st
  /\ st_network (snd (onResultProcess g options a request AsyncIterableResult st))
     = st_network st
  /\ st_console (snd (onResultProcess g options a request AsyncIterableResult st))
     = st_console st ++ [logger a debug [MStr "async iterable results not implemented for now"]].
Proof. done. Qed.

(** A record that is not populated makes the hook throw before anything is
    handed to delivery. *)
Lemma onResultProcess_misformed g options a request result st reqCtx tr :
  isAsyncIterable result = false ->
  st_ctxForReq st !! request = Some reqCtx ->
  tr ∈ Map_values (traces reqCtx) ->
  populated tr = false ->
  onResultProcess g options a request result st = (Throw misformed_trace, st).
Proof.
  intros Hres Hreq Hin Hbad. unfold onResultProcess. rewrite Hres, Hreq.
  by rewrite (group_traces_misformed _ _ tr).
Qed.

(** C3. When a trace record of the request lacks its schema id or its
    operation key (the field is [undefined], or empty), [onResultProcess]
    throws the [TypeError] "Misformed trace, missing operation key or schema
    id"; no record is skipped and nothing is sent. *)
Theorem dispatch_misformed_raises g options a request result st reqCtx tr :
  isAsyncIterable result = false ->
  st_ctxForReq st !! request = Some reqCtx ->
  tr ∈ Map_values (traces reqCtx) ->
  truthy (schemaId tr) = false \/ truthy (operationKey tr) = false ->
  onResultProcess g options a request result st = (Throw misformed_trace, st).
Proof.
  intros Hres Hreq Hin Hbad. apply (onResultProcess_misformed _ _ _ _ _ _ reqCtx tr); try done.
  unfold populated. destruct Hbad as [-> | ->]; [done | apply andb_false_r].
Qed.

Lemma groupable_populated {T : Type} (tr : ApolloUsageReportGraphqlContext T) :
  groupable tr = true -> populated tr = true.
Proof. unfold groupable. by intros [[? _]%andb_prop _]%andb_prop. Qed.

(** C1. When the result is not streamed and the N trace records of the
    request all carry the same schema id (records with both fields, under
    keys that are own properties), the first loop builds exactly one
    group, for that id; it holds the N payloads, under the operation keys of
    the records, one list per key in which the payloads of the records with
    that key follow each other; and that group is the one report given to
    delivery. *)
Theorem dispatch_single_schema g options a request result st reqCtx sid :
  isAsyncIterable result = false ->
  st_ctxForReq st !! request = Some reqCtx ->
  Map_values (traces reqCtx) <> [] ->
  Forall (fun tr => schemaId tr = Some sid /\ groupable tr = true)
    (Map_values (traces reqCtx)) ->
  exists tracesPerQuery,
    group_traces (Map_values (traces reqCtx)) [] = Normal [(sid, tracesPerQuery)]
    /\ onResultProcess g options a request result st
       = (Normal tt,
          waitUntil (sendTrace g options (logger a) (fetchAPI a) sid tracesPerQuery) st)
    /\ NoDup (map fst tracesPerQuery)
    /\ (forall key,
          obj_get tracesPerQuery key =
            match payloads sid key (Map_values (traces reqCtx)) with
            | [] => None
            | ps => Some {| tas_trace := Some ps |}
            end)
    /\ traces_of tracesPerQuery ≡ₚ map trace (Map_values (traces reqCtx))
    /\ length (traces_of tracesPerQuery) = length (Map_values (traces reqCtx)).
Proof.
  intros Hres Hreq Hne Hall.
  set (values := Map_values (traces reqCtx)) in *.
  assert (Forall (fun tr => populated tr = true) values) as Hpop.
  { eapply Forall_impl; [exact Hall|]. intros tr [_ Hg]. by apply groupable_populated. }
  remember (foldl (fun t tr => group_one tr t) [] values) as t eqn:Ht.
  assert (map fst t = [sid]) as Hkeys.
  { subst t. rewrite keys_foldl_group_one. simpl.
    assert (Forall (fun s => s = sid) (schema_ids values)) as Hids.
    { unfold schema_ids. apply Forall_map. eapply Forall_impl; [exact Hall|].
      intros tr [-> _]. done. }
    destruct values as [|tr rest]; [done|].
    apply Forall_cons in Hids as [Htr Hrest]. simpl in *. rewrite Htr.
    unfold add_key at 2. rewrite decide_False by apply not_elem_of_nil.
    by apply foldl_add_key_same. }
  assert (group_traces values [] = Normal t) as Hgroup
    by (rewrite Ht; by apply group_traces_all).
  destruct (foldl_group_one_ok values [] cells_ok_nil inner_keys_ok_nil) as [_ Hk].
  pose proof (fun key => cell_foldl_group_one values [] sid key Hpop cells_ok_nil) as Hcell.
  pose proof (all_traces_foldl_group_one values [] cells_ok_nil) as Hp.
  rewrite <- Ht in Hk, Hcell, Hp. clear Ht.
  destruct t as [|[s q] [|? ?]]; try done. injection Hkeys as ->.
  assert (obj_get [(sid, q)] sid = Some q) as Hget by (simpl; by rewrite String.eqb_refl).
  unfold all_traces in Hp. simpl in Hp. rewrite app_nil_r in Hp.
  exists q. split_and!.
  - done.
  - unfold onResultProcess. rewrite Hres, Hreq.
    change (Map_values (traces reqCtx)) with values. rewrite Hgroup.
    rewrite for_in_keys_singleton. simpl. by rewrite String.eqb_refl.
  - by apply (Hk sid).
  - intros key. specialize (Hcell key). unfold cell in Hcell. rewrite Hget in Hcell.
    by rewrite Hcell.
  - done.
  - rewrite Hp. by rewrite length_map.
Qed.

(** C4. When the trace records of the request (records with both fields,
    under keys that are own properties) carry K distinct schema ids,
    [onResultProcess] gives exactly K promises to [waitUntil], one call of
    [sendTrace] per schema id. The call for a schema id encodes a report
    whose header carries that id and whose traces are the group of that id;
    when the encoder accepts the report the call has made one [POST] request,
    whose body is the encoded report, and its promise stands at
    [await fetch(...)] on the promise that [fetch] returned, not yet looked
    at; when the encoder throws, the call has logged the error and made no
    request. The hook returns normally whatever [fetch] answers, and what it
    has logged and requested by then is what those calls did before their
    first [await]. *)
Theorem dispatch_one_task_per_schema g options a request result st reqCtx :
  isAsyncIterable result = false ->
  st_ctxForReq st !! request = Some reqCtx ->
  Forall (fun tr => groupable tr = true) (Map_values (traces reqCtx)) ->
  exists tracesPerSchema ids,
    group_traces (Map_values (traces reqCtx)) [] = Normal tracesPerSchema
    /\ ids ≡ₚ remove_dups (schema_ids (Map_values (traces reqCtx)))
    /\ (forall sid, sid ∈ ids ->
          exists group,
            obj_get tracesPerSchema sid = Some group
            /\ obj_get (header (encoded_report g options sid group))
                 "executableSchemaId" = Some (Some sid)
            /\ tracesPerQuery (encoded_report g options sid group) = group
            /\ match Report_encode (encoded_report g options sid group) with
               | Normal bytes =>
                   exists post,
                     sendTrace g options (logger a) (fetchAPI a) sid group
                     = ([], AwaitFetch (logger a) post (fetch (fetchAPI a) post))
                     /\ body post = bytes
                     /\ report_request g options post
               | Throw e =>
                   sendTrace g options (logger a) (fetchAPI a) sid group
                   = ([logger a error [MStr "Failed to send trace:"; MErr e]],
                      Settled (Normal tt))
               end)
    /\ fst (onResultProcess g options a request result st) = Normal tt
    /\ st_waitUntil (snd (onResultProcess g options a request result st))
       = st_waitUntil st
         ++ map (fun sid =>
                   snd (sendTrace g options (logger a) (fetchAPI a) sid
                          (default [] (obj_get tracesPerSchema sid)))) ids
    /\ st_network (snd (onResultProcess g options a request result st))
       = st_network st
         ++ concat (map (fun sid =>
                           fetch_calls
                             (snd (sendTrace g options (logger a) (fetchAPI a) sid
                                     (default [] (obj_get tracesPerSchema sid))))) ids)
    /\ st_console (snd (onResultProcess g options a request result st))
       = st_console st
         ++ concat (map (fun sid =>
                           fst (sendTrace g options (logger a) (fetchAPI a) sid
                                  (default [] (obj_get tracesPerSchema sid)))) ids)
    /\ length (st_waitUntil (snd (onResultProcess g options a request result st)))
       = length (st_waitUntil st)
         + length (remove_dups (schema_ids (Map_values (traces reqCtx))))
    /\ (forall t, t ∈ drop (length (st_waitUntil st))
                        (st_waitUntil (snd (onResultProcess g options a request result st))) ->
          awaits_fetch t \/ t = Settled (Normal tt)).
Proof.
  intros Hres Hreq Hall.
  assert (Forall (fun tr => populated tr = true) (Map_values (traces reqCtx))) as Hpop.
  { eapply Forall_impl; [exact Hall|]. intros tr. apply groupable_populated. }
  set (t := foldl (fun t tr => group_one tr t) [] (Map_values (traces reqCtx))).
  assert (group_traces (Map_values (traces reqCtx)) [] = Normal t) as Hgroup
    by (by apply group_traces_all).
  assert (for_in_keys t ≡ₚ remove_dups (schema_ids (Map_values (traces reqCtx)))) as Hids.
  { rewrite for_in_keys_perm. unfold t. rewrite keys_foldl_group_one. simpl.
    apply foldl_add_key_distinct. }
  set (f := fun sid => sendTrace g options (logger a) (fetchAPI a) sid
                         (default [] (obj_get t sid))).
  assert (onResultProcess g options a request result st
          = (Normal tt, fold_left (fun st k => waitUntil (f k) st) (for_in_keys t) st)) as Hrun.
  { unfold onResultProcess. by rewrite Hres, Hreq, Hgroup. }
  destruct (fold_waitUntil f (for_in_keys t) st) as (Hw & Hc & Hn & _).
  assert (st_waitUntil (snd (onResultProcess g options a request result st))
          = st_waitUntil st ++ map (fun sid => snd (f sid)) (for_in_keys t)) as Hw'.
  { rewrite Hrun. simpl. rewrite Hw. by rewrite map_map. }
  exists t, (for_in_keys t). split_and!.
  - done.
  - done.
  - intros sid Hin. destruct (obj_get_for_in_keys _ _ Hin) as [q Hq].
    exists q. split; [done|]. split; [done|]. split; [done|].
    unfold sendTrace. destruct (Report_encode _) as [bytes|e]; [|done].
    eexists. split; [reflexivity|]. split; [done|]. by split.
  - by rewrite Hrun.
  - exact Hw'.
  - rewrite Hrun. simpl. rewrite Hn. by rewrite map_map.
  - rewrite Hrun. simpl. rewrite Hc. by rewrite map_map.
  - rewrite Hw', length_app, length_map. by rewrite Hids.
  - intros t0. rewrite Hw', drop_app_length. intros (sid & -> & _)%list_elem_of_fmap.
    unfold f. destruct (sendTrace_call g options (logger a) (fetchAPI a) sid
                          (default [] (obj_get t sid))) as [[_ ?]|?]; [by left | by right].
Qed.
End Dispatcher.

(** ** The collector *)

Section JsMapFacts.
Context {V : Type}.
Implicit Types (m : JsMap V).

Lemma Map_get_alter_eq (f : V -> V) m k : Map_get (Map_alter f k m) k = f <$> Map_get m k.
Proof.
  induction m as [|[k' v'] m IH]; simpl; [done|].
  destruct (Nat.eqb_spec k' k) as [->|Hne]; simpl.
  - by rewrite Nat.eqb_refl.
  - by destruct (Nat.eqb_spec k' k).
Qed.

Lemma Map_get_alter_ne (f : V -> V) m k k' :
  k <> k' -> Map_get (Map_alter f k m) k' = Map_get m k'.
Proof.
  intros Hne. induction m as [|[k0 v0] m IH]; simpl; [done|].
  destruct (Nat.eqb_spec k0 k) as [->|Hne0]; simpl.
  - by destruct (Nat.eqb_spec k k').
  - by rewrite IH.
Qed.

Lemma Map_get_values m k v : Map_get m k = Some v -> v ∈ Map_values m.
Proof.
  induction m as [|[k' v'] m IH]; simpl; [done|].
  destruct (Nat.eqb k' k).
  - intros [= ->]. left.
  - intros Hg. right. by apply IH.
Qed.
End JsMapFacts.

Section Collector.
Context `{GraphQLJS} {Trace : Type} `{!ReportEncoder Trace}.
Implicit Types (st : State Trace) (a : Assigned) (context : YogaInitialContext).
Implicit Types (ctx : ApolloUsageReportGraphqlContext Trace).

(** The envelope step of an operation that has a trace context and a query
    that lexes: the two fields of the record are assigned. *)
Lemma onEnveloped_stamps a context st ctx signature :
  trace_context st context = Some ctx ->
  signature_of (params context) = Normal signature ->
  fst (onEnveloped a (Some context) st) = Normal tt
  /\ trace_context (snd (onEnveloped a (Some context) st)) context
     = Some (stamp (operationKey_of (params context) signature) (st_schemaId st) ctx)
  /\ st_schemaId (snd (onEnveloped a (Some context) st)) = st_schemaId st.
Proof.
  intros Hctx Hsig. unfold onEnveloped. rewrite Hctx, Hsig. simpl.
  split_and!; [done | | done].
  unfold trace_context in *. simpl. rewrite lookup_alter_eq.
  destruct (st_ctxForReq st !! request context) as [reqCtx|]; [|done]. simpl.
  by rewrite Map_get_alter_eq, Hctx.
Qed.

(** The envelope step of an operation leaves the records of the other
    operations as they are. *)
Lemma onEnveloped_other a c st context :
  ~ (request c = request context /\ identity c = identity context) ->
  trace_context (snd (onEnveloped a (Some c) st)) context = trace_context st context.
Proof.
  intros Hne. unfold onEnveloped.
  destruct (trace_context st c); [|done].
  destruct (signature_of (params c)); [|done]. simpl.
  unfold trace_context. simpl.
  destruct (decide (request c = request context)) as [Hr|Hr].
  - rewrite <- Hr, lookup_alter_eq.
    destruct (st_ctxForReq st !! request c); [|done]. simpl.
    rewrite Map_get_alter_ne; [done|]. naive_solver.
  - by rewrite lookup_alter_ne.
Qed.

Lemma onEnveloped_schemaId a c st :
  st_schemaId (snd (onEnveloped a c st)) = st_schemaId st.
Proof.
  unfold onEnveloped. destruct c as [c|]; [|done].
  destruct (trace_context st c); [|done]. by destruct (signature_of (params c)).
Qed.

Lemma onResultProcess_collector g options a request result st :
  st_ctxForReq (snd (onResultProcess g options a request result st)) = st_ctxForReq st
  /\ st_schemaId (snd (onResultProcess g options a request result st)) = st_schemaId st.
Proof.
  unfold onResultProcess. destruct (isAsyncIterable result); [done|].
  destruct (st_ctxForReq st !! request) as [reqCtx|]; [|done].
  destruct (group_traces _ _) as [t|]; [|done]. simpl.
  match goal with
  | |- context [fold_left ?F ?ks st] =>
      destruct (fold_waitUntil
                  (fun k => sendTrace g options (logger a) (fetchAPI a) k
                              (default [] (obj_get t k))) ks st)
        as (_ & _ & _ & -> & _ & ->)
  end.
  done.
Qed.

(** Only the envelope step of an operation writes to its record. *)
Lemma step_other g options a e st context :
  ~ envelops context e ->
  trace_context (snd (step g options a e st)) context = trace_context st context.
Proof.
  intros He. destruct e as [schema|i|c|request result|i]; simpl.
  - by destruct schema.
  - unfold hash_settles. by destruct (st_hashing st !! i) as [[]|].
  - destruct c as [c|]; [|done]. by apply onEnveloped_other.
  - unfold trace_context.
    by destruct (onResultProcess_collector g options a request result st) as [-> _].
  - unfold task_resumes. by destruct (st_waitUntil st !! i).
Qed.

Lemma run_other g options a events st context :
  Forall (fun e => ~ envelops context e) events ->
  trace_context (run g options a events st) context = trace_context st context.
Proof.
  intros Hall. revert st. induction Hall as [|e events He _ IH]; intros st; [done|].
  simpl. change (fold_left _ events ?s) with (run g options a events s).
  rewrite IH. by apply step_other.
Qed.

(** The variable [schemaId] is written by the [then] callback of a hash, and
    by nothing else. *)
Lemma step_schemaId g options a e st :
  ~ settles_hash e -> st_schemaId (snd (step g options a e st)) = st_schemaId st.
Proof.
  intros He. destruct e as [schema|i|c|request result|i]; simpl.
  - by destruct schema.
  - by destruct He.
  - apply onEnveloped_schemaId.
  - apply onResultProcess_collector.
  - unfold task_resumes. by destruct (st_waitUntil st !! i).
Qed.

Lemma run_schemaId g options a events st :
  Forall (fun e => ~ settles_hash e) events ->
  st_schemaId (run g options a events st) = st_schemaId st.
Proof.
  intros Hall. revert st. induction Hall as [|e events He _ IH]; intros st; [done|].
  simpl. change (fold_left _ events ?s) with (run g options a events s).
  rewrite IH. by apply step_schemaId.
Qed.


(** A schema change starts a hash and leaves the variable as it is: the hash
    is stored when its promise settles. *)
Lemma onSchemaChange_pending g (schema : GraphQLSchema) st :
  st_schemaId (snd (onSchemaChange g (Some schema) st)) = st_schemaId st
  /\ st_hashing (snd (onSchemaChange g (Some schema) st)) !! length (st_hashing st)
     = Some (hashSHA256 (printSchema schema) g).
Proof.
  simpl. split; [done|]. by rewrite lookup_app_r, Nat.sub_diag.
Qed.

(** C6, as the code has it. For an operation that has a trace context, when
    [stripIgnoredCharacters] accepts the query the envelope step sets the
    operation key of the record to ["# "], then the operation name (["-"]
    when the name is absent or empty), a line feed, and the query as
    [stripIgnoredCharacters] returns it; when the query is absent or empty
    nothing follows the line feed; and when [stripIgnoredCharacters] throws
    on the query the envelope step throws that error and leaves the world,
    and so the operation key of the record, as it was. *)
Theorem envelope_operationKey a context st ctx :
  trace_context st context = Some ctx ->
  (forall q signature,
     query (params context) = Some q ->
     q <> "" ->
     stripIgnoredCharacters q = Normal signature ->
     fst (onEnveloped a (Some context) st) = Normal tt
     /\ exists ctx',
          trace_context (snd (onEnveloped a (Some context) st)) context = Some ctx'
          /\ operationKey ctx'
             = Some ("# "
                     +:+ match operationName (params context) with
                         | Some name => if String.eqb name "" then "-" else name
                         | None => "-"
                         end
                     +:+ LF +:+ signature)
          /\ trace ctx' = trace ctx)
  /\ (query (params context) = None \/ query (params context) = Some "" ->
      fst (onEnveloped a (Some context) st) = Normal tt
      /\ exists ctx',
           trace_context (snd (onEnveloped a (Some context) st)) context = Some ctx'
           /\ operationKey ctx'
              = Some ("# "
                      +:+ match operationName (params context) with
                          | Some name => if String.eqb name "" then "-" else name
                          | None => "-"
                          end
                      +:+ LF +:+ "")
           /\ trace ctx' = trace ctx)
  /\ (forall q e,
        query (params context) = Some q ->
        q <> "" ->
        stripIgnoredCharacters q = Throw e ->
        onEnveloped a (Some context) st = (Throw e, st)
        /\ trace_context (snd (onEnveloped a (Some context) st)) context = Some ctx).
Proof.
  intros Hctx.
  assert (forall signature,
            signature_of (params context) = Normal signature ->
            fst (onEnveloped a (Some context) st) = Normal tt
            /\ exists ctx',
                 trace_context (snd (onEnveloped a (Some context) st)) context = Some ctx'
                 /\ operationKey ctx'
                    = Some ("# "
                            +:+ match operationName (params context) with
                                | Some name => if String.eqb name "" then "-" else name
                                | None => "-"
                                end
                            +:+ LF +:+ signature)
                 /\ trace ctx' = trace ctx) as Hkey.
  { intros signature Hs.
    destruct (onEnveloped_stamps a context st ctx signature Hctx Hs) as (Hn & Ht & _).
    split; [done|]. eexists. split; [exact Ht|]. split; [|done].
    simpl. unfold operationKey_of, js_or.
    destruct (operationName (params context)) as [name|]; simpl; [|done].
    by destruct (String.eqb name ""). }
  assert (forall q, query (params context) = Some q -> q <> "" ->
            signature_of (params context) = stripIgnoredCharacters q) as Hsig.
  { intros q Hq Hne. unfold signature_of. rewrite Hq. simpl.
    by destruct (String.eqb_spec q ""). }
  split_and!.
  - intros q signature Hq Hne Hs. apply Hkey. by rewrite (Hsig q).
  - intros Hq. apply Hkey. unfold signature_of. by destruct Hq as [-> | ->].
  - intros q e Hq Hne He.
    assert (onEnveloped a (Some context) st = (Throw e, st)) as Hthrow.
    { unfold onEnveloped. by rewrite Hctx, (Hsig q), He. }
    by rewrite Hthrow.
Qed.


(** C9. The variable [schemaId] is unset when the plugin starts and is
    written when a hash settles. An operation whose envelope step runs
    before any hash has settled, schema changes or not, has [undefined]
    stamped as the schema id of its record; and whatever happens next, when
    the result of its request is processed [onResultProcess] throws the
    misformed-trace [TypeError]. *)
Theorem envelope_before_first_hash g options a ctxForReq before context ctx signature
    later result :
  Forall (fun e => ~ settles_hash e) before ->
  trace_context (run g options a before (init ctxForReq)) context = Some ctx ->
  signature_of (params context) = Normal signature ->
  Forall (fun e => ~ envelops context e) later ->
  isAsyncIterable result = false ->
  schemaId <$> trace_context
                 (snd (onEnveloped a (Some context) (run g options a before (init ctxForReq))))
                 context
  = Some None
  /\ fst (onResultProcess g options a (request context) result
            (run g options a later
               (snd (onEnveloped a (Some context)
                       (run g options a before (init ctxForReq))))))
     = Throw misformed_trace.
Proof.
  intros Hbefore Hctx Hsig Hlater Hres.
  destruct (onEnveloped_stamps a context _ ctx signature Hctx Hsig) as (_ & Ht & _).
  rewrite run_schemaId in Ht by done.
  change (st_schemaId (init ctxForReq)) with (@None string) in Ht.
  split; [by rewrite Ht|].
  set (st1 := snd (onEnveloped a (Some context) (run g options a before (init ctxForReq)))) in *.
  assert (trace_context (run g options a later st1) context
          = Some (stamp (operationKey_of (params context) signature) None ctx)) as Hlate
    by (by rewrite run_other).
  unfold trace_context in Hlate.
  destruct (st_ctxForReq (run g options a later st1) !! request context) as [reqCtx|] eqn:Hreq;
    [|done].
  rewrite (onResultProcess_misformed g options a (request context) result _ reqCtx
             (stamp (operationKey_of (params context) signature) None ctx));
    [done | done | done | | done].
  by eapply Map_get_values.
Qed.
End Collector.

(** ** The keys the plugin writes *)

Lemma all_hex_app s1 s2 : all_hex (s1 +:+ s2) = all_hex s1 && all_hex s2.
Proof.
  induction s1 as [|c s1 IH]; simpl; [done|]. by rewrite IH, andb_assoc.
Qed.

Lemma length_app_string s1 s2 :
  String.length (s1 +:+ s2) = (String.length s1 + String.length s2)%nat.
Proof. induction s1 as [|c s1 IH]; simpl; [done|]. by rewrite IH. Qed.

(** A byte is written as two hexadecimal digits. *)
Lemma byte_hex (b : byte) :
  all_hex (padStart (Number_toString16 (Byte.to_N b)) 2 "0") = true
  /\ String.length (padStart (Number_toString16 (Byte.to_N b)) 2 "0") = 2%nat.
Proof. destruct b; split; reflexivity. Qed.

Lemma hex_fold (bs : list byte) (acc : string) :
  all_hex acc = true ->
  all_hex (fold_left
             (fun hashHex bytes =>
                hashHex +:+ padStart (Number_toString16 (Byte.to_N bytes)) 2 "0") bs acc) = true
  /\ String.length
       (fold_left
          (fun hashHex bytes =>
             hashHex +:+ padStart (Number_toString16 (Byte.to_N bytes)) 2 "0") bs acc)
     = (String.length acc + 2 * length bs)%nat.
Proof.
  revert acc. induction bs as [|b bs IH]; intros acc Hacc; simpl.
  - split; [done | lia].
  - destruct (byte_hex b) as [Hb Hl].
    destruct (IH (acc +:+ padStart (Number_toString16 (Byte.to_N b)) 2 "0")) as [IH1 IH2].
    { by rewrite all_hex_app, Hacc, Hb. }
    split; [done|]. rewrite IH2, length_app_string, Hl. lia.
Qed.

(** The id computed by [hashSHA256] is made of hexadecimal digits, two per
    byte of the digest: 64 of them for SHA-256. *)
Lemma hex_of_bytes_hex (bs : list byte) :
  all_hex (hex_of_bytes bs) = true /\ String.length (hex_of_bytes bs) = (2 * length bs)%nat.
Proof. destruct (hex_fold bs "" eq_refl) as [? ?]. by split. Qed.

Lemma inherited_key_all_hex (k : string) : all_hex k = true -> inherited_key k = false.
Proof.
  intros Hhex. unfold inherited_key, Object_prototype_names. simpl.
  repeat match goal with
         | |- context [String.eqb k ?name] =>
             destruct (String.eqb_spec k name) as [Heq|_];
             [rewrite Heq in Hhex; discriminate|]
         end.
  reflexivity.
Qed.

Lemma hex_of_bytes_not_inherited (bs : list byte) : inherited_key (hex_of_bytes bs) = false.
Proof. apply inherited_key_all_hex, hex_of_bytes_hex. Qed.

Lemma operationKey_not_inherited (p : GraphQLParams) (signature : string) :
  inherited_key (operationKey_of p signature) = false.
Proof. reflexivity. Qed.

(** A record stamped by the envelope step under a stored hash is one the
    dispatcher groups. *)
Lemma stamp_groupable {Trace : Type} (p : GraphQLParams) (signature : string)
    (bs : list byte) (ctx : ApolloUsageReportGraphqlContext Trace) :
  bs <> [] ->
  groupable (stamp (operationKey_of p signature) (Some (hex_of_bytes bs)) ctx) = true.
Proof.
  intros Hbs. unfold groupable, populated. simpl.
  rewrite hex_of_bytes_not_inherited. simpl.
  destruct (hex_of_bytes_hex bs) as [_ Hlen].
  destruct (String.eqb_spec (hex_of_bytes bs) "") as [Heq|_]; [|done].
  rewrite Heq in Hlen. destruct bs; [done | discriminate].
Qed.

(** An operation key is never empty, so that a stamped record passes the
    check of the dispatcher as soon as its schema id is there. *)
Lemma operationKey_truthy (p : GraphQLParams) (signature : string) :
  truthy (Some (operationKey_of p signature)) = true.
Proof. done. Qed.

(** ** Delivery *)

Section Delivery.
Context {Trace : Type} `{!ReportEncoder Trace}.
Implicit Types (q : JsObject (TracesAndStats Trace)).

(** A continuation of [sendTrace] never calls [fetch]: a report is sent at
    most once. *)
Lemma sendTrace_resume_no_fetch t :
  fetch_calls (snd (sendTrace_resume t)) = []
  \/ (exists result, t = Settled result).
Proof.
  destruct t as [lg req [response|err]|lg response|result]; simpl;
    [by left | by left | | right; by eexists].
  left. destruct (text response); [|done]. by destruct (ok response).
Qed.

(** C7. A run of [sendTrace] always ends with its promise fulfilled, so that
    nothing is thrown to the caller or out of the background task, and it
    calls [fetch] at most once. When the response has a status outside
    200-299, the only log entry is an error with the body of the response;
    when [fetch] rejects, the only log entry is an error with the exception;
    in both cases the one request is not repeated. *)
Theorem sendTrace_never_rejects g options lg f sid q :
  snd (sendTrace_run (sendTrace g options lg f sid q)) = Settled (Normal tt)
  /\ length (snd (fst (sendTrace_run (sendTrace g options lg f sid q)))) <= 1
  /\ (forall request response answer,
        snd (sendTrace g options lg f sid q) = AwaitFetch lg request (Normal response) ->
        ok response = false ->
        text response = Normal answer ->
        sendTrace_run (sendTrace g options lg f sid q)
        = ([lg error [MStr "Failed to send trace:"; MStr answer]], [request],
           Settled (Normal tt)))
  /\ (forall request err,
        snd (sendTrace g options lg f sid q) = AwaitFetch lg request (Throw err) ->
        sendTrace_run (sendTrace g options lg f sid q)
        = ([lg error [MStr "Failed to send trace:"; MErr err]], [request],
           Settled (Normal tt))).
Proof.
  unfold sendTrace_run, sendTrace.
  destruct (Report_encode _) as [body|e]; simpl.
  - destruct (fetch f _) as [response|err]; simpl.
    + split_and!.
      * destruct (text response); [|done]. by destruct (ok response).
      * destruct (text response); [|simpl; lia]. by destruct (ok response).
      * intros request response' answer [= <- <-] Hok Htext. by rewrite Htext, Hok.
      * intros request err [=].
    + split_and!; [done | simpl; lia | |].
      * intros request response answer [=].
      * by intros request err' [= <- <-].
  - split_and!; [done | simpl; lia | |].
    + intros request response answer [=].
    + intros request err [=].
Qed.

(** C8. The object that [sendTrace] encodes has a header with the two fields
    [graphRef] and [executableSchemaId], the second being the schema id of
    the group; its [operationCount] is 1; its [tracesPerQuery] is the group,
    an object from operation keys to lists of payloads. The body of the
    request is the encoding of that object. *)
Theorem encoded_report_fields g options lg f sid q :
  map fst (header (encoded_report g options sid q)) = ["graphRef"; "executableSchemaId"]
  /\ obj_get (header (encoded_report g options sid q)) "executableSchemaId" = Some (Some sid)
  /\ operationCount (encoded_report g options sid q) = 1%N
  /\ tracesPerQuery (encoded_report g options sid q) = q
  /\ map body (fetch_calls (snd (sendTrace g options lg f sid q)))
     = match Report_encode (encoded_report g options sid q) with
       | Normal bytes => [bytes]
       | Throw _ => []
       end.
Proof.
  split_and!; try done.
  unfold sendTrace. by destruct (Report_encode _).
Qed.

(** C10. The two places that resolve the credentials take them in opposite
    orders. [getEnvVar] returns the environment variable when it is set and
    not empty, else the option when it is set and not empty, else
    [undefined]: an empty option counts as absent. [onYogaInit] checks what
    [getEnvVar] returns: it throws the missing-key error when that is
    [undefined] for the key, the missing-graph-ref error when it is for the
    graph ref only, and returns normally otherwise. [sendTrace] takes the
    option whenever it is not [undefined], and the environment variable
    otherwise: that is the graph ref of the report it encodes and the
    [x-api-key] of the request it makes when the encoder accepts the report.
    So when both are set, not empty and different, [onYogaInit] checks the
    value of the environment and the request and the report carry the value
    of the option. *)
Theorem credentials_resolution_order g options yoga lg f sid q :
  (forall name option,
     getEnvVar g name option
     = if truthy (process_env g name) then process_env g name
       else if truthy option then option else None)
  /\ (forall name, getEnvVar g name (Some "") = getEnvVar g name None)
  /\ (getEnvVar g "APOLLO_KEY" (apiKey options) = None ->
      snd (onYogaInit g options yoga) = Throw missing_api_key)
  /\ (forall key,
        getEnvVar g "APOLLO_KEY" (apiKey options) = Some key ->
        getEnvVar g "APOLLO_GRAPH_REF" (graphRef options) = None ->
        snd (onYogaInit g options yoga) = Throw missing_graph_ref)
  /\ (forall key ref,
        getEnvVar g "APOLLO_KEY" (apiKey options) = Some key ->
        getEnvVar g "APOLLO_GRAPH_REF" (graphRef options) = Some ref ->
        snd (onYogaInit g options yoga) = Normal tt)
  /\ (process_env g "APOLLO_KEY" = None -> apiKey options = Some "" ->
      snd (onYogaInit g options yoga) = Throw missing_api_key)
  /\ obj_get (header (encoded_report g options sid q)) "graphRef"
     = Some (match graphRef options with
             | Some ref => Some ref
             | None => getEnvVar g "APOLLO_GRAPH_REF" None
             end)
  /\ (forall bytes,
        Report_encode (encoded_report g options sid q) = Normal bytes ->
        exists post,
          sendTrace g options lg f sid q = ([], AwaitFetch lg post (fetch f post))
          /\ body post = bytes
          /\ obj_get (headers post) "x-api-key"
             = Some (match apiKey options with
                     | Some key => Some key
                     | None => getEnvVar g "APOLLO_KEY" None
                     end))
  /\ Forall (fun request =>
               obj_get (headers request) "x-api-key"
               = Some (match apiKey options with
                       | Some key => Some key
                       | None => getEnvVar g "APOLLO_KEY" None
                       end))
       (fetch_calls (snd (sendTrace g options lg f sid q)))
  /\ (forall envKey envRef optKey optRef,
        process_env g "APOLLO_KEY" = Some envKey -> envKey <> "" ->
        process_env g "APOLLO_GRAPH_REF" = Some envRef -> envRef <> "" ->
        apiKey options = Some optKey -> graphRef options = Some optRef ->
        getEnvVar g "APOLLO_KEY" (apiKey options) = Some envKey
        /\ getEnvVar g "APOLLO_GRAPH_REF" (graphRef options) = Some envRef
        /\ snd (onYogaInit g options yoga) = Normal tt
        /\ obj_get (header (encoded_report g options sid q)) "graphRef" = Some (Some optRef)
        /\ (forall bytes,
              Report_encode (encoded_report g options sid q) = Normal bytes ->
              exists post,
                sendTrace g options lg f sid q = ([], AwaitFetch lg post (fetch f post))
                /\ body post = bytes
                /\ obj_get (headers post) "x-api-key" = Some (Some optKey))
        /\ Forall (fun request => obj_get (headers request) "x-api-key" = Some (Some optKey))
             (fetch_calls (snd (sendTrace g options lg f sid q)))).
Proof.
  assert (forall name option,
            getEnvVar g name option
            = if truthy (process_env g name) then process_env g name
              else if truthy option then option else None) as Hget.
  { intros name option. unfold getEnvVar, js_or.
    destruct (truthy (process_env g name)) eqn:He; [by rewrite He|].
    by destruct (truthy option) eqn:Ho; rewrite ?Ho. }
  assert (forall name option v,
            getEnvVar g name option = Some v -> truthy (getEnvVar g name option) = true)
    as Hsome.
  { intros name option v. rewrite Hget.
    destruct (truthy (process_env g name)) eqn:He; [by intros _|].
    destruct (truthy option) eqn:Ho; [by intros _ | done]. }
  assert (forall e s, process_env g e = Some s -> s <> "" ->
            forall d, getEnvVar g e d = Some s) as Henv.
  { intros e s He Hs d. rewrite Hget, He. simpl. by destruct (String.eqb_spec s ""). }
  assert (forall bytes,
            Report_encode (encoded_report g options sid q) = Normal bytes ->
            exists post,
              sendTrace g options lg f sid q = ([], AwaitFetch lg post (fetch f post))
              /\ body post = bytes
              /\ obj_get (headers post) "x-api-key"
                 = Some (match apiKey options with
                         | Some key => Some key
                         | None => getEnvVar g "APOLLO_KEY" None
                         end)) as Hsend.
  { intros bytes Hb. unfold sendTrace. rewrite Hb. eexists. split; [reflexivity|].
    split; [done|]. simpl. by destruct (apiKey options). }
  split_and!.
  - exact Hget.
  - intros name. rewrite !Hget. by destruct (truthy (process_env g name)).
  - intros Hk. unfold onYogaInit. by rewrite Hk.
  - intros key Hk Hr. unfold onYogaInit. rewrite (Hsome _ _ _ Hk), Hr. done.
  - intros key ref Hk Hr. unfold onYogaInit.
    by rewrite (Hsome _ _ _ Hk), (Hsome _ _ _ Hr).
  - intros He Ho. unfold onYogaInit. rewrite Hget, He, Ho. done.
  - simpl. by destruct (graphRef options).
  - exact Hsend.
  - unfold sendTrace. destruct (Report_encode _); simpl; [|constructor].
    constructor; [|constructor]. simpl. by destruct (apiKey options).
  - intros envKey envRef optKey optRef HeK HnK HeR HnR HoK HoR.
    rewrite (Henv _ _ HeK HnK), (Henv _ _ HeR HnR). split_and!; try done.
    + unfold onYogaInit. rewrite (Henv _ _ HeK HnK), (Henv _ _ HeR HnR). simpl.
      destruct (String.eqb_spec envKey ""); [done|].
      by destruct (String.eqb_spec envRef "").
    + simpl. by rewrite HoR.
    + intros bytes Hb. destruct (Hsend bytes Hb) as (post & Hp & Hbody & Hkey).
      exists post. split; [done|]. split; [done|]. by rewrite Hkey, HoK.
    + unfold sendTrace. destruct (Report_encode _); simpl; [|constructor].
      constructor; [|constructor]. simpl. by rewrite HoK.
Qed.
End Delivery.

(** ** The properties on the small host *)

Import SmallHost.

(** The scenario of the specification: one operation [GetUser] under the
    schema hash [abc123]. *)
Example GetUser_scenario :
  signature_of (params SmallHost.GetUser) = Normal "query GetUser{user{id}}"
  /\ SmallHost.key_GetUser = "# GetUser" +:+ LF +:+ "query GetUser{user{id}}"
  /\ group_traces [SmallHost.stamped SmallHost.key_GetUser "abc123" 100] []
     = Normal [("abc123", [(SmallHost.key_GetUser, {| tas_trace := Some [100] |})])]
  /\ header (encoded_report (SmallHost.node []) SmallHost.options "abc123"
               [(SmallHost.key_GetUser, {| tas_trace := Some [100] |})])
     = [("graphRef", Some "my-graph@prod"); ("executableSchemaId", Some "abc123")].
Proof. split_and!; reflexivity. Qed.

Example hashSHA256_hex :
  hex_of_bytes [x00; x0f; xa0; xff] = "000fa0ff"
  /\ hashSHA256 "" (node [])
     = Normal "0000000000000000000000000000000000000000000000000000000000000000".
Proof. split; reflexivity. Qed.

(** [for ... in] visits array indices first, in numeric order. *)
Example for_in_order :
  for_in_keys [("b", 1); ("10", 2); ("2", 3); ("a", 4); ("02", 5)] = ["2"; "10"; "b"; "a"; "02"].
Proof. reflexivity. Qed.

(** Without credentials [onYogaInit] throws; an empty option does not count
    at initialisation, and is what [sendTrace] sends when the environment
    passes the check. *)
Example onYogaInit_checks :
  snd (onYogaInit (node []) {| graphRef := Some "g@v"; apiKey := None; endpoint := None |}
         (yoga unreachable))
  = Throw missing_api_key
  /\ snd (onYogaInit (node []) {| graphRef := Some "g@v"; apiKey := Some ""; endpoint := None |}
            (yoga unreachable))
     = Throw missing_api_key
  /\ snd (onYogaInit (node [("APOLLO_KEY", "env:key")])
            {| graphRef := None; apiKey := Some "key"; endpoint := None |} (yoga unreachable))
     = Throw missing_graph_ref
  /\ snd (onYogaInit (node [("APOLLO_KEY", "env:key")])
            {| graphRef := Some "g@v"; apiKey := Some ""; endpoint := None |} (yoga unreachable))
     = Normal tt
  /\ map (fun r => obj_get (headers r) "x-api-key")
       (fetch_calls
          (snd (sendTrace (node [("APOLLO_KEY", "env:key")])
                  {| graphRef := Some "g@v"; apiKey := Some ""; endpoint := None |}
                  host_logger unreachable "abc123"
                  [(key_GetUser, {| tas_trace := Some [100] |})])))
     = [Some (Some "")].
Proof. split_and!; vm_compute; reflexivity. Qed.

(** A whole request: the schema is hashed, two operations are enveloped, the
    result is processed, the collector answers 200. *)
Example one_request :
  let st :=
    run (H := graphql) (node []) options (assigned (collector 200 "ok"))
      [SchemaChange (H := graphql) (Some schema1); HashSettles 0;
       Enveloped (Some GetUser); Enveloped (Some GetPosts);
       ResultProcess 7 ExecutionResult; TaskResumes 0; TaskResumes 0]
      (init batch) in
  length (st_network st) = 1
  /\ st_waitUntil st = [Settled (Normal tt)]
  /\ st_console st = [(debug, [MStr "[ApolloUsageReport]"; MStr "Traces sent:"; MStr "ok"])].
Proof. split_and!; vm_compute; reflexivity. Qed.

Lemma dispatch_single_schema_witness :
  exists tracesPerQuery,
    onResultProcess (SmallHost.node []) SmallHost.options (SmallHost.assigned SmallHost.unreachable)
      7 ExecutionResult (SmallHost.serving SmallHost.one_schema)
    = (Normal tt,
       waitUntil
         (sendTrace (SmallHost.node []) SmallHost.options
            (logger (SmallHost.assigned SmallHost.unreachable))
            (fetchAPI (SmallHost.assigned SmallHost.unreachable)) "abc123" tracesPerQuery)
         (SmallHost.serving SmallHost.one_schema))
    /\ obj_get tracesPerQuery SmallHost.key_GetUser = Some {| tas_trace := Some [100; 300] |}
    /\ obj_get tracesPerQuery SmallHost.key_GetPosts = Some {| tas_trace := Some [200] |}.
Proof.
  destruct (dispatch_single_schema (SmallHost.node []) SmallHost.options
              (SmallHost.assigned SmallHost.unreachable) 7 ExecutionResult
              (SmallHost.serving SmallHost.one_schema) SmallHost.one_schema "abc123")
    as (q & _ & Hrun & _ & Hget & _).
  - reflexivity.
  - reflexivity.
  - discriminate.
  - repeat constructor.
  - exists q. split; [exact Hrun|]. split.
    + exact (Hget SmallHost.key_GetUser).
    + exact (Hget SmallHost.key_GetPosts).
Defined.

Lemma dispatch_misformed_raises_witness :
  onResultProcess (SmallHost.node []) SmallHost.options (SmallHost.assigned SmallHost.unreachable)
    7 ExecutionResult (SmallHost.serving SmallHost.one_unstamped)
  = (Throw misformed_trace, SmallHost.serving SmallHost.one_unstamped).
Proof.
  apply (dispatch_misformed_raises _ _ _ _ _ _ SmallHost.one_unstamped (SmallHost.untouched 200)).
  - reflexivity.
  - reflexivity.
  - right. left.
  - left. reflexivity.
Defined.

Lemma dispatch_one_task_per_schema_witness :
  length (st_waitUntil
            (snd (onResultProcess (SmallHost.node []) SmallHost.options
                    (SmallHost.assigned SmallHost.unreachable) 7 ExecutionResult
                    (SmallHost.serving SmallHost.two_schemas))))
  = 2
  /\ exists group post,
       sendTrace (SmallHost.node []) SmallHost.options
         (logger (SmallHost.assigned SmallHost.unreachable))
         (fetchAPI (SmallHost.assigned SmallHost.unreachable)) "def456" group
       = ([], AwaitFetch (logger (SmallHost.assigned SmallHost.unreachable)) post
                (fetch (fetchAPI (SmallHost.assigned SmallHost.unreachable)) post))
       /\ obj_get (header (encoded_report (SmallHost.node []) SmallHost.options "def456" group))
            "executableSchemaId" = Some (Some "def456")
       /\ method post = "POST".
Proof.
  destruct (dispatch_one_task_per_schema (SmallHost.node []) SmallHost.options
              (SmallHost.assigned SmallHost.unreachable) 7 ExecutionResult
              (SmallHost.serving SmallHost.two_schemas) SmallHost.two_schemas)
    as (t & ids & _ & Hids & Hsid & _ & _ & _ & _ & Hlen & _).
  - reflexivity.
  - reflexivity.
  - repeat constructor.
  - split; [exact Hlen|].
    destruct (Hsid "def456") as (group & _ & Hheader & _ & Hcall).
    + rewrite Hids. apply elem_of_remove_dups. right. left.
    + simpl in Hcall. destruct Hcall as (post & Hpost & _ & Hmethod & _).
      exists group, post. split; [exact Hpost|]. split; [exact Hheader | exact Hmethod].
Defined.

Lemma envelope_operationKey_witness :
  exists ctx',
    trace_context
      (snd (onEnveloped (SmallHost.assigned SmallHost.unreachable) (Some SmallHost.GetUser)
              (init SmallHost.batch)))
      SmallHost.GetUser
    = Some ctx'
    /\ operationKey ctx' = Some ("# GetUser" +:+ LF +:+ "query GetUser{user{id}}").
Proof.
  destruct (proj1 (envelope_operationKey (SmallHost.assigned SmallHost.unreachable)
                     SmallHost.GetUser (init SmallHost.batch) (SmallHost.untouched 100)
                     eq_refl)
              "query GetUser { user { id } }" "query GetUser{user{id}}")
    as (_ & ctx' & Hctx & Hkey & _).
  - reflexivity.
  - discriminate.
  - reflexivity.
  - exists ctx'. split; [exact Hctx | exact Hkey].
Defined.

(** C6, as stated, fails: the query of the operation does not lex,
    [stripIgnoredCharacters] throws, the envelope step throws with it, and
    the record of the operation, which has a trace context, is left without
    operation key. *)
Lemma envelope_operationKey_not_lexing :
  trace_context (init batch) Broken = Some (untouched 100)
  /\ fst (onEnveloped (H := strict_graphql) (assigned unreachable) (Some Broken) (init batch))
     = Throw {| err_class := GraphQLErrorC;
                err_message := "Syntax Error: Unexpected character: ?" |}
  /\ operationKey <$> trace_context
                        (snd (onEnveloped (H := strict_graphql) (assigned unreachable)
                                (Some Broken) (init batch)))
                        Broken
     = Some None.
Proof. split_and!; vm_compute; reflexivity. Qed.

Ltac events_ok :=
  repeat first
    [ apply Forall_nil_2
    | apply Forall_cons; split;
      [ simpl; first [ intros [_ Hid]; discriminate Hid | intros [] ] | ] ].



Lemma envelope_before_first_hash_witness :
  fst (onResultProcess (node []) options (assigned unreachable) 7 ExecutionResult
         (run (H := graphql) (node []) options (assigned unreachable)
            [HashSettles 0; Enveloped (Some GetPosts)]
            (snd (onEnveloped (assigned unreachable) (Some GetUser)
                    (run (H := graphql) (node []) options (assigned unreachable)
                       [SchemaChange (H := graphql) (Some schema1)] (init batch))))))
  = Throw misformed_trace.
Proof.
  refine (proj2 (envelope_before_first_hash (H := graphql) (node []) options
                   (assigned unreachable) batch
                   [SchemaChange (H := graphql) (Some schema1)] GetUser (untouched 100)
                   "query GetUser{user{id}}"
                   [HashSettles 0; Enveloped (Some GetPosts)] ExecutionResult
                   _ _ _ _ _)).
  - events_ok.
  - vm_compute; reflexivity.
  - vm_compute; reflexivity.
  - events_ok.
  - reflexivity.
Defined.

Lemma sendTrace_never_rejects_witness :
  exists request,
    sendTrace_run
      (sendTrace (node []) options host_logger (collector 500 "internal error") "abc123"
         [(key_GetUser, {| tas_trace := Some [100] |})])
    = ([host_logger error [MStr "Failed to send trace:"; MStr "internal error"]],
       [request], Settled (Normal tt)).
Proof.
  eexists.
  apply (proj1 (proj2 (proj2 (sendTrace_never_rejects (node []) options host_logger
                                (collector 500 "internal error") "abc123"
                                [(key_GetUser, {| tas_trace := Some [100] |})])))
           _ {| status := 500; text := Normal "internal error" |} "internal error").
  - reflexivity.
  - reflexivity.
  - reflexivity.
Defined.

Lemma credentials_resolution_order_witness :
  (getEnvVar node_with_credentials "APOLLO_KEY" (apiKey options) = Some "env:key"
   /\ getEnvVar node_with_credentials "APOLLO_GRAPH_REF" (graphRef options)
      = Some "env-graph@prod"
   /\ snd (onYogaInit node_with_credentials options (yoga unreachable)) = Normal tt
   /\ obj_get (header (encoded_report node_with_credentials options "abc123"
                         [(key_GetUser, {| tas_trace := Some [100] |})]))
        "graphRef"
      = Some (Some "my-graph@prod")
   /\ exists post,
        sendTrace node_with_credentials options host_logger unreachable "abc123"
          [(key_GetUser, {| tas_trace := Some [100] |})]
        = ([], AwaitFetch host_logger post (fetch unreachable post))
        /\ obj_get (headers post) "x-api-key" = Some (Some "service:key"))
  /\ snd (onYogaInit (node [])
            {| graphRef := Some "my-graph@prod"; apiKey := Some ""; endpoint := None |}
            (yoga unreachable))
     = Throw missing_api_key.
Proof.
  split.
  - destruct (proj2 (proj2 (proj2 (proj2 (proj2 (proj2 (proj2 (proj2 (proj2
                (credentials_resolution_order node_with_credentials options
                   (yoga unreachable) host_logger unreachable "abc123"
                   [(key_GetUser, {| tas_trace := Some [100] |})])))))))))
                "env:key" "env-graph@prod" "service:key" "my-graph@prod")
      as (Hkey & Href & Hinit & Hreport & Hsend & _).
    + vm_compute; reflexivity.
    + discriminate.
    + vm_compute; reflexivity.
    + discriminate.
    + reflexivity.
    + reflexivity.
    + split; [exact Hkey|]. split; [exact Href|]. split; [exact Hinit|].
      split; [exact Hreport|].
      destruct (Hsend _ eq_refl) as (post & Hpost & _ & Hheader).
      exists post. split; [exact Hpost | exact Hheader].
  - apply (proj1 (proj2 (proj2 (proj2 (proj2 (proj2
             (credentials_resolution_order (Trace := nat) (node [])
                {| graphRef := Some "my-graph@prod"; apiKey := Some ""; endpoint := None |}
                (yoga unreachable) host_logger unreachable "abc123" []))))))).
    + vm_compute; reflexivity.
    + reflexivity.
Defined.

(** * Further properties of the code *)

(** ** Credentials and initialisation *)

Lemma truthy_spec (v : option string) :
  truthy v = true <-> exists s, v = Some s /\ s <> "".
Proof.
  split; [apply truthy_Some|]. intros (s & -> & Hs). simpl.
  by destruct (String.eqb_spec s "").
Qed.

Lemma truthy_js_or_available g name option :
  truthy (js_or (process_env g name) option) = true <-> available g name option.
Proof.
  unfold js_or, available. destruct (truthy (process_env g name)) eqn:He.
  - rewrite He. apply truthy_spec in He as (s & He & Hs). naive_solver.
  - rewrite truthy_spec. split.
    + intros (s & -> & Hs). eauto.
    + intros (s & Hs & [Henv | ->]); [|eauto].
      assert (truthy (process_env g name) = true) as Ht by (apply truthy_spec; eauto).
      congruence.
Qed.

Lemma getEnvVar_js_or g name d :
  getEnvVar g name d
  = if truthy (js_or (process_env g name) d) then js_or (process_env g name) d else None.
Proof. unfold getEnvVar. unfold js_or at 1. by destruct (truthy (js_or _ d)). Qed.

Lemma truthy_getEnvVar g name d :
  truthy (getEnvVar g name d) = truthy (js_or (process_env g name) d).
Proof. rewrite getEnvVar_js_or. by destruct (truthy (js_or _ d)) eqn:Ht. Qed.

(** X1. [getEnvVar] never returns an empty string: its result is
    [undefined] or a string that is not empty, and it is [undefined] exactly
    when neither the environment variable nor the default is a string that
    is not empty. Where there is no [process] (outside Node) the result is
    the default, if it is not empty. *)
Theorem getEnvVar_result g name d :
  (getEnvVar g name d = None \/ exists s, getEnvVar g name d = Some s /\ s <> "")
  /\ (getEnvVar g name d = None <-> ~ available g name d)
  /\ (process g = None -> getEnvVar g name d = if truthy d then d else None).
Proof.
  split_and!.
  - rewrite getEnvVar_js_or. destruct (truthy (js_or _ d)) eqn:Ht; [|by left].
    right. by apply truthy_spec.
  - rewrite <- truthy_js_or_available, getEnvVar_js_or.
    destruct (truthy (js_or _ d)) eqn:Ht.
    + apply truthy_spec in Ht as (s & -> & _). split; [done | intros Hn; by destruct Hn].
    + split; [by intros _ | done].
  - intros Hp. unfold getEnvVar, process_env. rewrite Hp. unfold js_or. simpl.
    by destruct (truthy d) eqn:Hd; rewrite ?Hd.
Qed.

(** X2. [onYogaInit] assigns [fetchAPI] and [logger] in every case, and
    returns normally exactly when the API key and the graph ref can each be
    had, from the environment or from the options, as a string that is not
    empty. Without the key it throws the missing-key error, whether or not
    the graph ref is there; with the key and without the graph ref it throws
    the missing-graph-ref error. *)
Theorem onYogaInit_outcome g options yoga :
  fst (onYogaInit g options yoga)
  = {| fetchAPI := yoga_fetchAPI yoga; logger := plugin_logger yoga |}
  /\ (snd (onYogaInit g options yoga) = Normal tt
      <-> available g "APOLLO_KEY" (apiKey options)
          /\ available g "APOLLO_GRAPH_REF" (graphRef options))
  /\ (~ available g "APOLLO_KEY" (apiKey options) ->
      snd (onYogaInit g options yoga) = Throw missing_api_key)
  /\ (available g "APOLLO_KEY" (apiKey options) ->
      ~ available g "APOLLO_GRAPH_REF" (graphRef options) ->
      snd (onYogaInit g options yoga) = Throw missing_graph_ref).
Proof.
  rewrite <- !truthy_js_or_available. unfold onYogaInit. rewrite !truthy_getEnvVar.
  destruct (truthy (js_or (process_env g "APOLLO_KEY") (apiKey options)));
    destruct (truthy (js_or (process_env g "APOLLO_GRAPH_REF") (graphRef options)));
    simpl; split_and!; try done; naive_solver.
Qed.

(** ** The schema id *)

Lemma string_app_assoc (s1 s2 s3 : string) : (s1 +:+ s2) +:+ s3 = s1 +:+ (s2 +:+ s3).
Proof.
  induction s1 as [|c s1 IH]; [done|].
  change (String c ((s1 +:+ s2) +:+ s3) = String c (s1 +:+ (s2 +:+ s3))). by f_equal.
Qed.

Lemma string_app_empty_r (s : string) : s +:+ "" = s.
Proof.
  induction s as [|c s IH]; [done|].
  change (String c (s +:+ "") = String c s). by f_equal.
Qed.

Lemma hex_fold_app (bs : list byte) (acc : string) :
  fold_left
    (fun hashHex bytes => hashHex +:+ padStart (Number_toString16 (Byte.to_N bytes)) 2 "0")
    bs acc
  = acc +:+ hex_of_bytes bs.
Proof.
  unfold hex_of_bytes. revert acc. induction bs as [|b bs IH]; intros acc; simpl.
  - by rewrite string_app_empty_r.
  - set (p := padStart (Number_toString16 (Byte.to_N b)) 2 "0").
    rewrite (IH (acc +:+ p)), (IH ("" +:+ p)). change ("" +:+ p) with p.
    apply string_app_assoc.
Qed.

Lemma hex_of_bytes_cons (b : byte) (bs : list byte) :
  hex_of_bytes (b :: bs)
  = padStart (Number_toString16 (Byte.to_N b)) 2 "0" +:+ hex_of_bytes bs.
Proof. unfold hex_of_bytes at 1. simpl. apply hex_fold_app. Qed.

Lemma bytes_of_hex_byte (b : byte) (s : string) :
  bytes_of_hex (padStart (Number_toString16 (Byte.to_N b)) 2 "0" +:+ s)
  = match bytes_of_hex s with Some bs => Some (b :: bs) | None => None end.
Proof. destruct b; reflexivity. Qed.

Lemma bytes_of_hex_of_bytes (bs : list byte) : bytes_of_hex (hex_of_bytes bs) = Some bs.
Proof.
  induction bs as [|b bs IH]; [done|].
  by rewrite hex_of_bytes_cons, bytes_of_hex_byte, IH.
Qed.

(** X3. When the digest is fulfilled with n bytes, [hashSHA256] is fulfilled
    with a string of 2n hexadecimal digits in lower case (64 for a SHA-256
    digest); when the digest is rejected, [hashSHA256] is rejected with the
    same error. *)
Theorem hashSHA256_shape str api :
  match subtle_digest api "SHA-256" (TextEncoder_encode api str) with
  | Normal digest =>
      exists id, hashSHA256 str api = Normal id
                 /\ all_hex id = true
                 /\ String.length id = (2 * length digest)%nat
  | Throw e => hashSHA256 str api = Throw e
  end.
Proof.
  unfold hashSHA256. destruct (subtle_digest _ _ _) as [digest|e]; [|done].
  destruct (hex_of_bytes_hex digest) as [Hhex Hlen]. by eexists.
Qed.

(** X4. The hexadecimal string that the loop of [hashSHA256] builds
    determines the bytes of the digest: decoding it gives them back, so that
    two digests that differ give two schema ids that differ. *)
Theorem hex_of_bytes_injective (bs : list byte) :
  bytes_of_hex (hex_of_bytes bs) = Some bs
  /\ forall bs', hex_of_bytes bs = hex_of_bytes bs' -> bs = bs'.
Proof.
  split; [apply bytes_of_hex_of_bytes|].
  intros bs' Heq. pose proof (bytes_of_hex_of_bytes bs) as H1.
  rewrite Heq, bytes_of_hex_of_bytes in H1. by injection H1.
Qed.

(** ** More on the dispatcher *)

Section DispatcherMore.
Context {Trace : Type} `{!ReportEncoder Trace}.
Implicit Types (st : State Trace) (a : Assigned).
Implicit Types (values : list (ApolloUsageReportGraphqlContext Trace)).

(** [onResultProcess] adds the promises of its [sendTrace] calls, their
    requests and their log entries, after a debug entry when it skips. *)
Lemma onResultProcess_calls g options a request result st :
  st_waitUntil (snd (onResultProcess g options a request result st))
  = st_waitUntil st ++ map snd (dispatch_calls g options a request result (st_ctxForReq st))
  /\ st_network (snd (onResultProcess g options a request result st))
     = st_network st
       ++ concat (map (fun c => fetch_calls (snd c))
                    (dispatch_calls g options a request result (st_ctxForReq st)))
  /\ (exists skipped,
        st_console (snd (onResultProcess g options a request result st))
        = st_console st ++ skipped
          ++ concat (map fst (dispatch_calls g options a request result (st_ctxForReq st)))
        /\ (skipped = [] \/ exists msgs, skipped = [logger a debug msgs]))
  /\ st_ctxForReq (snd (onResultProcess g options a request result st)) = st_ctxForReq st
  /\ st_schemaId (snd (onResultProcess g options a request result st)) = st_schemaId st
  /\ st_hashing (snd (onResultProcess g options a request result st)) = st_hashing st.
Proof.
  unfold onResultProcess, dispatch_calls. destruct (isAsyncIterable result).
  { simpl. split_and!; rewrite ?app_nil_r; try done.
    eexists. split; [by rewrite app_nil_r|]. right. by eexists. }
  destruct (st_ctxForReq st !! request) as [reqCtx|].
  2:{ simpl. split_and!; rewrite ?app_nil_r; try done.
      eexists. split; [by rewrite app_nil_r|]. right. by eexists. }
  destruct (group_traces _ _) as [t|e].
  2:{ simpl. split_and!; rewrite ?app_nil_r; try done.
      exists []. split; [by rewrite !app_nil_r | by left]. }
  simpl.
  destruct (fold_waitUntil
              (fun k => sendTrace g options (logger a) (fetchAPI a) k
                          (default [] (obj_get t k))) (for_in_keys t) st)
    as (-> & -> & -> & -> & -> & ->).
  split_and!; try done. exists []. split; [done | by left].
Qed.

(** X5. For records that the dispatcher can group, whatever their schema
    ids, the first loop of [onResultProcess] ends normally with one group per
    distinct schema id; under a schema id and an operation key it holds the
    payloads of the records stamped with both, in the order of the records;
    and over all groups every payload of the request is there once. *)
Theorem group_traces_partition values :
  Forall (fun tr => groupable tr = true) values ->
  exists tracesPerSchema,
    group_traces values [] = Normal tracesPerSchema
    /\ NoDup (map fst tracesPerSchema)
    /\ (forall sid, sid ∈ map fst tracesPerSchema <-> sid ∈ schema_ids values)
    /\ (forall sid key,
          cell tracesPerSchema sid key =
            match payloads sid key values with
            | [] => None
            | ps => Some {| tas_trace := Some ps |}
            end)
    /\ all_traces tracesPerSchema ≡ₚ map trace values.
Proof.
  intros Hall.
  assert (Forall (fun tr => populated tr = true) values) as Hpop.
  { eapply Forall_impl; [exact Hall|]. intros tr. apply groupable_populated. }
  exists (foldl (fun t tr => group_one tr t) [] values). split_and!.
  - by apply group_traces_all.
  - rewrite keys_foldl_group_one. apply foldl_add_key_NoDup, NoDup_nil_2.
  - intros sid. rewrite keys_foldl_group_one, elem_of_foldl_add_key. simpl.
    rewrite elem_of_nil. naive_solver.
  - intros sid key. by rewrite cell_foldl_group_one by (done || apply cells_ok_nil).
  - by rewrite all_traces_foldl_group_one by apply cells_ok_nil.
Qed.
End DispatcherMore.

(** ** The order and the number of the deliveries *)

Lemma for_in_keys_no_index {V : Type} (o : JsObject V) :
  Forall (fun k => array_index k = None) (map fst o) -> for_in_keys o = map fst o.
Proof.
  unfold for_in_keys. intros Hall.
  assert (index_keys (map fst o) = [] /\ string_keys (map fst o) = map fst o) as [-> ->];
    [|done].
  induction Hall as [|k ks Hk _ [IH1 IH2]]; simpl; [done|].
  rewrite Hk. split; [done | by f_equal].
Qed.

Lemma digits_value_lower (s : string) (acc n : N) :
  digits_value s acc = Some n -> (acc * 10 ^ N.of_nat (String.length s) <= n)%N.
Proof.
  revert acc. induction s as [|c s IH]; intros acc; simpl digits_value.
  - intros [= <-]. simpl. lia.
  - destruct (is_digit c); [|done]. intros Hn. apply IH in Hn.
    change (String.length (String c s)) with (S (String.length s)).
    rewrite Nat2N.inj_succ, N.pow_succ_r'.
    etrans; [|exact Hn]. nia.
Qed.

(** A key of more than ten characters is not an array index. *)
Lemma array_index_long (k : string) : 11 <= String.length k -> array_index k = None.
Proof.
  destruct k as [|c rest]; [done|].
  change (String.length (String c rest)) with (S (String.length rest)). intros Hlen.
  unfold array_index.
  destruct (Ascii.eqb_spec c "0") as [->|Hc]; simpl andb.
  - destruct (String.eqb_spec rest "") as [->|_]; [simpl in Hlen; lia | done].
  - simpl digits_value. destruct (is_digit c) eqn:Hd; [|done].
    destruct (digits_value rest _) as [n|] eqn:Hn; [|done].
    apply digits_value_lower in Hn.
    assert (1 <= N.of_nat (nat_of_ascii c) - 48)%N as Hone.
    { unfold is_digit in Hd. apply andb_prop in Hd as [H1%Nat.leb_le _].
      assert (nat_of_ascii c <> 48) as Hne.
      { intros Heq. apply Hc. rewrite <- (ascii_nat_embedding c), Heq. reflexivity. }
      lia. }
    assert (10 ^ 10 <= 10 ^ N.of_nat (String.length rest))%N as Hpow
      by (apply N.pow_le_mono_r; lia).
    assert (4294967295 < 10 ^ 10)%N as Hbig by reflexivity.
    destruct (N.ltb_spec n 4294967295); [|done]. nia.
Qed.

(** The id of a digest of six bytes or more, so of every SHA-256 digest, is
    not an array index. *)
Lemma hex_of_bytes_no_index (bs : list byte) :
  6 <= length bs -> array_index (hex_of_bytes bs) = None.
Proof.
  intros Hlen. apply array_index_long. destruct (hex_of_bytes_hex bs) as [_ ->]. lia.
Qed.

Section Deliveries.
Context {Trace : Type} `{!ReportEncoder Trace}.
Implicit Types (st : State Trace) (a : Assigned).

Lemma dispatch_calls_groupable g options a request result
    (m : gmap nat (ApolloUsageReportRequestContext Trace)) reqCtx :
  isAsyncIterable result = false ->
  m !! request = Some reqCtx ->
  Forall (fun tr => populated tr = true) (Map_values (traces reqCtx)) ->
  dispatch_calls g options a request result m
  = map (fun sid =>
           sendTrace g options (logger a) (fetchAPI a) sid
             (default []
                (obj_get (foldl (fun t tr => group_one tr t) [] (Map_values (traces reqCtx)))
                   sid)))
      (for_in_keys (foldl (fun t tr => group_one tr t) [] (Map_values (traces reqCtx)))).
Proof.
  intros Hres Hreq Hpop. unfold dispatch_calls.
  by rewrite Hres, Hreq, group_traces_all.
Qed.

(** X6. When no schema id of the records is an array index, as is the case
    of the ids that [hashSHA256] computes, the reports are handed to
    [waitUntil] in the order in which their schema ids first appear among the
    records of the request. *)
Theorem dispatch_in_order_of_appearance g options a request result st reqCtx :
  isAsyncIterable result = false ->
  st_ctxForReq st !! request = Some reqCtx ->
  Forall (fun tr => groupable tr = true /\ array_index (default "" (schemaId tr)) = None)
    (Map_values (traces reqCtx)) ->
  exists tracesPerSchema,
    group_traces (Map_values (traces reqCtx)) [] = Normal tracesPerSchema
    /\ st_waitUntil (snd (onResultProcess g options a request result st))
       = st_waitUntil st
         ++ map (fun sid =>
                   snd (sendTrace g options (logger a) (fetchAPI a) sid
                          (default [] (obj_get tracesPerSchema sid))))
              (foldl add_key [] (schema_ids (Map_values (traces reqCtx)))).
Proof.
  intros Hres Hreq Hall.
  assert (Forall (fun tr => populated tr = true) (Map_values (traces reqCtx))) as Hpop.
  { eapply Forall_impl; [exact Hall|]. intros tr [Hg _]. by apply groupable_populated. }
  set (t := foldl (fun t tr => group_one tr t) [] (Map_values (traces reqCtx))).
  exists t. split; [by apply group_traces_all|].
  destruct (onResultProcess_calls g options a request result st) as (-> & _).
  rewrite (dispatch_calls_groupable _ _ _ _ _ _ reqCtx) by done. fold t.
  rewrite map_map. f_equal.
  assert (map fst t = foldl add_key [] (schema_ids (Map_values (traces reqCtx)))) as Hkeys
    by (unfold t; by rewrite keys_foldl_group_one).
  rewrite for_in_keys_no_index; rewrite Hkeys; [done|].
  apply Forall_forall. intros sid Hsid%elem_of_foldl_add_key.
  destruct Hsid as [Hsid|Hsid]; [by apply elem_of_nil in Hsid|].
  unfold schema_ids in Hsid. apply list_elem_of_fmap in Hsid as (tr & -> & Htr).
  rewrite Forall_forall in Hall. by apply Hall.
Qed.

(** X7. When the encoder accepts every report, [onResultProcess] calls
    [fetch] exactly once per distinct schema id of the records before it
    returns, and logs nothing. *)
Theorem dispatch_fetch_per_schema g options a request result st reqCtx :
  (forall report : Report Trace, exists bytes, Report_encode report = Normal bytes) ->
  isAsyncIterable result = false ->
  st_ctxForReq st !! request = Some reqCtx ->
  Forall (fun tr => groupable tr = true) (Map_values (traces reqCtx)) ->
  length (st_network (snd (onResultProcess g options a request result st)))
  = length (st_network st) + length (remove_dups (schema_ids (Map_values (traces reqCtx))))
  /\ st_console (snd (onResultProcess g options a request result st)) = st_console st.
Proof.
  intros Henc Hres Hreq Hall.
  assert (Forall (fun tr => populated tr = true) (Map_values (traces reqCtx))) as Hpop.
  { eapply Forall_impl; [exact Hall|]. intros tr. apply groupable_populated. }
  set (t := foldl (fun t tr => group_one tr t) [] (Map_values (traces reqCtx))).
  assert (for_in_keys t ≡ₚ remove_dups (schema_ids (Map_values (traces reqCtx)))) as Hids.
  { rewrite for_in_keys_perm. unfold t. rewrite keys_foldl_group_one. simpl.
    apply foldl_add_key_distinct. }
  set (f := fun sid => sendTrace g options (logger a) (fetchAPI a) sid
                         (default [] (obj_get t sid))).
  assert (forall sid, fst (f sid) = [] /\ length (fetch_calls (snd (f sid))) = 1) as Hcall.
  { intros sid. unfold f, sendTrace.
    destruct (Henc (encoded_report g options sid (default [] (obj_get t sid))))
      as [bytes ->]. done. }
  assert (onResultProcess g options a request result st
          = (Normal tt, fold_left (fun st k => waitUntil (f k) st) (for_in_keys t) st)) as ->.
  { unfold onResultProcess. by rewrite Hres, Hreq, group_traces_all. }
  destruct (fold_waitUntil f (for_in_keys t) st) as (_ & Hcon & Hnet & _).
  simpl. rewrite Hcon, Hnet, length_app, <- Hids. clear Hcon Hnet Hids.
  induction (for_in_keys t) as [|k ks [IH1 IH2]]; simpl.
  - by rewrite app_nil_r.
  - destruct (Hcall k) as [-> Hone]. rewrite length_app, Hone. simpl.
    split; [lia | done].
Qed.
End Deliveries.

(** ** What dispatch keeps *)

Section DispatchKeeps.
Context {Trace : Type} `{!ReportEncoder Trace}.
Implicit Types (st : State Trace) (a : Assigned).

Lemma onResultProcess_completion g options a request result st :
  fst (onResultProcess g options a request result st)
  = if isAsyncIterable result then Normal tt
    else match st_ctxForReq st !! request with
         | None => Normal tt
         | Some reqCtx =>
             match group_traces (Map_values (traces reqCtx)) [] with
             | Normal _ => Normal tt
             | Throw e => Throw e
             end
         end.
Proof.
  unfold onResultProcess. destruct (isAsyncIterable result); [done|].
  destruct (st_ctxForReq st !! request); [|done]. by destruct (group_traces _ _).
Qed.

Lemma fetch_calls_le (calls : list (list LogEntry * SendTrace)) :
  length (concat (map (fun c => fetch_calls (snd c)) calls)) <= length calls.
Proof.
  induction calls as [|[l t] calls IH]; simpl; [done|].
  rewrite length_app. destruct t; simpl; lia.
Qed.

(** X8. [onResultProcess] does not consume the trace records: it leaves the
    trace contexts, the schema id and the pending hashes as they are, and
    only adds to the promises, the requests and the log. Processing the
    result of the same request a second time ends the same way and hands
    over the same reports again. *)
Theorem dispatch_keeps_records g options a request result st :
  st_ctxForReq (snd (onResultProcess g options a request result st)) = st_ctxForReq st
  /\ st_schemaId (snd (onResultProcess g options a request result st)) = st_schemaId st
  /\ st_hashing (snd (onResultProcess g options a request result st)) = st_hashing st
  /\ fst (onResultProcess g options a request result
            (snd (onResultProcess g options a request result st)))
     = fst (onResultProcess g options a request result st)
  /\ st_waitUntil (snd (onResultProcess g options a request result
                          (snd (onResultProcess g options a request result st))))
     = st_waitUntil (snd (onResultProcess g options a request result st))
       ++ drop (length (st_waitUntil st))
            (st_waitUntil (snd (onResultProcess g options a request result st)))
  /\ st_network (snd (onResultProcess g options a request result
                        (snd (onResultProcess g options a request result st))))
     = st_network (snd (onResultProcess g options a request result st))
       ++ drop (length (st_network st))
            (st_network (snd (onResultProcess g options a request result st))).
Proof.
  destruct (onResultProcess_calls g options a request result st)
    as (Hw & Hn & _ & Hc & Hs & Hh).
  destruct (onResultProcess_calls g options a request result
              (snd (onResultProcess g options a request result st)))
    as (Hw' & Hn' & _).
  split_and!; try done.
  - by rewrite !onResultProcess_completion, Hc.
  - rewrite Hw', Hc. rewrite Hw at 3. by rewrite drop_app_length.
  - rewrite Hn', Hc. rewrite Hn at 3. by rewrite drop_app_length.
Qed.

End DispatchKeeps.

(** ** More on the collector *)

Section JsMapMore.
Context {V : Type}.
Implicit Types (m : JsMap V).


Lemma Map_alter_idemp (f : V -> V) m k :
  (forall v, f (f v) = f v) -> Map_alter f k (Map_alter f k m) = Map_alter f k m.
Proof.
  intros Hf. induction m as [|[k' v'] m IH]; simpl; [done|].
  destruct (Nat.eqb_spec k' k) as [->|Hne]; simpl.
  - by rewrite Nat.eqb_refl, Hf.
  - destruct (Nat.eqb_spec k' k); [done|]. by rewrite IH.
Qed.


Lemma Map_alter_payload {T : Type} (p : V -> T) (f : V -> V) m k :
  (forall v, p (f v) = p v) ->
  map (fun kv => (fst kv, p (snd kv))) (Map_alter f k m)
  = map (fun kv => (fst kv, p (snd kv))) m.
Proof.
  intros Hf. induction m as [|[k' v'] m IH]; simpl; [done|].
  destruct (Nat.eqb k' k); simpl; by rewrite ?Hf, ?IH.
Qed.
End JsMapMore.

Section CollectorMore.
Context `{GraphQLJS} {Trace : Type} `{!ReportEncoder Trace}.
Implicit Types (st : State Trace) (a : Assigned) (context : YogaInitialContext).
Implicit Types (ctx : ApolloUsageReportGraphqlContext Trace).

(** X9. The envelope step of an operation that has a trace context can be
    repeated: as long as no hash settles in between, a second envelope step
    of the same operation leaves the world as the first one left it. *)
Theorem envelope_twice a context st ctx :
  trace_context st context = Some ctx ->
  snd (onEnveloped a (Some context) (snd (onEnveloped a (Some context) st)))
  = snd (onEnveloped a (Some context) st).
Proof.
  intros Hctx. destruct (signature_of (params context)) as [signature|e] eqn:Hsig.
  - destruct (onEnveloped_stamps a context st ctx signature Hctx Hsig) as (_ & Hctx' & _).
    assert (snd (onEnveloped a (Some context) st)
            = set_ctxForReq
                (alter
                   (fun reqCtx =>
                      {| traces :=
                           Map_alter
                             (stamp (operationKey_of (params context) signature)
                                (st_schemaId st))
                             (identity context) (traces reqCtx) |})
                   (request context) (st_ctxForReq st))
                st) as Hst1
      by (unfold onEnveloped; by rewrite Hctx, Hsig).
    rewrite Hst1 in Hctx' |- *.
    unfold onEnveloped. rewrite Hctx', Hsig. simpl. unfold set_ctxForReq. simpl.
    f_equal. rewrite alter_alter_eq. apply alter_ext. intros reqCtx _. simpl.
    f_equal. apply Map_alter_idemp. by intros [].
  - unfold onEnveloped at 2. rewrite Hctx, Hsig. simpl.
    unfold onEnveloped. by rewrite Hctx, Hsig.
Qed.

(** X10. When [stripIgnoredCharacters] throws on the query of an operation,
    the envelope step throws the same error and leaves the record as it was;
    if the record had not been stamped before, [onResultProcess] throws the
    misformed-trace error when the result of the request is processed. *)
Theorem envelope_failure_then_dispatch g options a context st ctx e later result :
  trace_context st context = Some ctx ->
  populated ctx = false ->
  signature_of (params context) = Throw e ->
  Forall (fun ev => ~ envelops context ev) later ->
  isAsyncIterable result = false ->
  onEnveloped a (Some context) st = (Throw e, st)
  /\ fst (onResultProcess g options a (request context) result (run g options a later st))
     = Throw misformed_trace.
Proof.
  intros Hctx Hpop Hsig Hlater Hres. split.
  - unfold onEnveloped. by rewrite Hctx, Hsig.
  - assert (trace_context (run g options a later st) context = Some ctx) as Hlate
      by (by rewrite run_other).
    unfold trace_context in Hlate.
    destruct (st_ctxForReq (run g options a later st) !! request context)
      as [reqCtx|] eqn:Hreq; [|done].
    rewrite (onResultProcess_misformed g options a (request context) result _ reqCtx ctx);
      [done | done | done | | done].
    by eapply Map_get_values.
Qed.

Lemma records_of_alter (m : gmap nat (ApolloUsageReportRequestContext Trace))
    (f : ApolloUsageReportGraphqlContext Trace -> ApolloUsageReportGraphqlContext Trace)
    (r k : nat) :
  (forall v, trace (f v) = trace v) ->
  records_of (alter (fun reqCtx => {| traces := Map_alter f k (traces reqCtx) |}) r m)
  = records_of m.
Proof.
  intros Hf. unfold records_of. apply map_eq. intros i.
  rewrite !lookup_fmap. destruct (decide (r = i)) as [->|Hne].
  - rewrite lookup_alter_eq. destruct (m !! i) as [reqCtx|]; [|done]. simpl.
    f_equal. by apply Map_alter_payload.
  - by rewrite lookup_alter_ne.
Qed.

Lemma step_records g options a ev st :
  records_of (st_ctxForReq (snd (step g options a ev st))) = records_of (st_ctxForReq st).
Proof.
  destruct ev as [schema|i|c|request result|i]; simpl.
  - by destruct schema.
  - unfold hash_settles. by destruct (st_hashing st !! i) as [[]|].
  - unfold onEnveloped. destruct c as [c|]; [|done].
    destruct (trace_context st c); [|done].
    destruct (signature_of (params c)); [|done]. simpl.
    by apply records_of_alter.
  - by destruct (onResultProcess_collector g options a request result st) as [-> _].
  - unfold task_resumes. by destruct (st_waitUntil st !! i).
Qed.

(** X11. Whatever happens, the plugin neither adds nor removes nor reorders
    trace records, and it never changes a payload: the requests that have
    trace contexts, the identities of their records and the payloads are
    after a run what they were before it. *)
Theorem run_keeps_records g options a events st :
  records_of (st_ctxForReq (run g options a events st)) = records_of (st_ctxForReq st).
Proof.
  revert st. induction events as [|ev events IH]; intros st; [done|].
  simpl. change (fold_left _ events ?s) with (run g options a events s).
  by rewrite IH, step_records.
Qed.
End CollectorMore.

(** ** Collector and dispatcher together *)

Section EnvelopedRequest.
Context `{GraphQLJS} {Trace : Type} `{!ReportEncoder Trace}.
Implicit Types (st : State Trace) (a : Assigned) (context : YogaInitialContext).



Lemma run_cons g options a (ev : Event) (events : list Event) st :
  run g options a (ev :: events) st = run g options a events (snd (step g options a ev st)).
Proof. done. Qed.


End EnvelopedRequest.

(** ** More on delivery *)

Section DeliveryMore.
Context {Trace : Type} `{!ReportEncoder Trace}.
Implicit Types (q : JsObject (TracesAndStats Trace)).

(** X13. Every run of [sendTrace] writes exactly one log entry, and the
    entry is fixed by how far the run got. When [fetch] is fulfilled with a
    response whose body reads as [answer], the entry is the debug entry
    "Traces sent:" with [answer] when the status is in 200-299, and the error
    entry "Failed to send trace:" with [answer] otherwise. When reading the
    body fails, when [fetch] rejects, or when the encoder throws, the entry
    is the error entry with the error that was raised. So the entry is an
    error entry whenever the report is not delivered. *)
Theorem sendTrace_logs_once g options lg f sid q :
  (forall lg' post response answer,
     snd (sendTrace g options lg f sid q) = AwaitFetch lg' post (Normal response) ->
     ok response = true -> text response = Normal answer ->
     fst (fst (sendTrace_run (sendTrace g options lg f sid q)))
     = [lg debug [MStr "Traces sent:"; MStr answer]])
  /\ (forall lg' post response answer,
        snd (sendTrace g options lg f sid q) = AwaitFetch lg' post (Normal response) ->
        ok response = false -> text response = Normal answer ->
        fst (fst (sendTrace_run (sendTrace g options lg f sid q)))
        = [lg error [MStr "Failed to send trace:"; MStr answer]])
  /\ (forall lg' post response err,
        snd (sendTrace g options lg f sid q) = AwaitFetch lg' post (Normal response) ->
        text response = Throw err ->
        fst (fst (sendTrace_run (sendTrace g options lg f sid q)))
        = [lg error [MStr "Failed to send trace:"; MErr err]])
  /\ (forall lg' post err,
        snd (sendTrace g options lg f sid q) = AwaitFetch lg' post (Throw err) ->
        fst (fst (sendTrace_run (sendTrace g options lg f sid q)))
        = [lg error [MStr "Failed to send trace:"; MErr err]])
  /\ (forall e,
        Report_encode (encoded_report g options sid q) = Throw e ->
        fst (fst (sendTrace_run (sendTrace g options lg f sid q)))
        = [lg error [MStr "Failed to send trace:"; MErr e]])
  /\ (~ delivered (sendTrace g options lg f sid q) ->
      exists cause,
        fst (fst (sendTrace_run (sendTrace g options lg f sid q)))
        = [lg error [MStr "Failed to send trace:"; cause]]).
Proof.
  unfold delivered, sendTrace_run, sendTrace.
  destruct (Report_encode _) as [bytes|e]; simpl.
  - destruct (fetch f _) as [response|err]; simpl.
    + destruct (text response) as [answer|err] eqn:Htext; simpl.
      * destruct (ok response) eqn:Hok; simpl.
        -- split_and!.
           ++ intros ? ? ? ? [= <- <- <-] _ Ht. rewrite Htext in Ht. by injection Ht as <-.
           ++ intros ? ? ? ? [= <- <- <-] Hok' _. congruence.
           ++ intros ? ? ? ? [= <- <- <-] Ht. congruence.
           ++ intros ? ? ? [=].
           ++ intros ? [=].
           ++ intros Hn. exfalso. apply Hn.
              do 4 eexists. split_and!; [reflexivity | exact Hok | exact Htext].
        -- split_and!.
           ++ intros ? ? ? ? [= <- <- <-] Hok' _. congruence.
           ++ intros ? ? ? ? [= <- <- <-] _ Ht. rewrite Htext in Ht. by injection Ht as <-.
           ++ intros ? ? ? ? [= <- <- <-] Ht. congruence.
           ++ intros ? ? ? [=].
           ++ intros ? [=].
           ++ intros _; by eexists.
      * split_and!.
        -- intros ? ? ? ? [= <- <- <-] _ Ht. congruence.
        -- intros ? ? ? ? [= <- <- <-] _ Ht. congruence.
        -- intros ? ? ? ? [= <- <- <-] Ht. rewrite Htext in Ht. by injection Ht as <-.
        -- intros ? ? ? [=].
        -- intros ? [=].
        -- intros _; by eexists.
    + split_and!.
      * intros ? ? ? ? [=].
      * intros ? ? ? ? [=].
      * intros ? ? ? ? [=].
      * by intros ? ? ? [= <- <- <-].
      * intros ? [=].
      * intros _; by eexists.
  - split_and!.
    + intros ? ? ? ? [=].
    + intros ? ? ? ? [=].
    + intros ? ? ? ? [=].
    + intros ? ? ? [=].
    + by intros ? [= <-].
    + intros _; by eexists.
Qed.

(** X14. [sendTrace] calls [fetch] exactly when the encoder accepts the
    report. When the encoder throws, no request is made: the error is logged
    and the promise is fulfilled at once. *)
Theorem sendTrace_encode_failure g options lg f sid q :
  ((exists e, Report_encode (encoded_report g options sid q) = Throw e)
   <-> snd (fst (sendTrace_run (sendTrace g options lg f sid q))) = [])
  /\ (forall e,
        Report_encode (encoded_report g options sid q) = Throw e ->
        sendTrace g options lg f sid q
        = ([lg error [MStr "Failed to send trace:"; MErr e]], Settled (Normal tt))
        /\ sendTrace_run (sendTrace g options lg f sid q)
           = ([lg error [MStr "Failed to send trace:"; MErr e]], [], Settled (Normal tt))).
Proof.
  unfold sendTrace_run, sendTrace. split.
  - destruct (Report_encode _) as [bytes|e]; simpl.
    + split; [by intros [e He] | done].
    + split; [done | intros _; by exists e].
  - intros e He. by rewrite He.
Qed.
End DeliveryMore.

(** ** What holds in every world the plugin reaches *)

Section Worlds.
Context `{GraphQLJS} {Trace : Type} `{!ReportEncoder Trace}.
Implicit Types (st : State Trace) (a : Assigned).

Lemma run_invariant g options a (P : State Trace -> Prop) (events : list Event) st :
  (forall ev s, P s -> P (snd (step g options a ev s))) -> P st -> P (run g options a events st).
Proof.
  intros Hstep. revert st. induction events as [|ev events IH]; intros st Hst; [done|].
  rewrite run_cons. apply IH, Hstep, Hst.
Qed.

Lemma sendTrace_plugin_task g options a sid (q : JsObject (TracesAndStats Trace)) :
  plugin_task g options a (snd (sendTrace g options (logger a) (fetchAPI a) sid q))
  /\ Forall (report_request g options)
       (fetch_calls (snd (sendTrace g options (logger a) (fetchAPI a) sid q)))
  /\ Forall (fun entry => exists level msgs, entry = logger a level msgs)
       (fst (sendTrace g options (logger a) (fetchAPI a) sid q)).
Proof.
  unfold sendTrace. destruct (Report_encode _); simpl.
  - split; [done|]. split; [by repeat constructor | constructor].
  - split; [done|]. split; [constructor|]. repeat constructor. by eexists _, _.
Qed.

Lemma sendTrace_resume_plugin_task g options a t :
  plugin_task g options a t ->
  plugin_task g options a (snd (sendTrace_resume t))
  /\ Forall (fun entry => exists level msgs, entry = logger a level msgs)
       (fst (sendTrace_resume t)).
Proof.
  destruct t as [lg request [response|err]|lg response|result]; simpl.
  - intros [-> _]. split; [done | constructor].
  - intros [-> _]. split; [done|]. repeat constructor. by eexists _, _.
  - intros ->. destruct (text response); [destruct (ok response)|]; simpl;
      (split; [done|]); repeat constructor; by eexists _, _.
  - intros ->. split; [done | constructor].
Qed.

Lemma dispatch_calls_plugin g options a request result
    (m : gmap nat (ApolloUsageReportRequestContext Trace)) :
  Forall (fun c => plugin_task g options a (snd c)
                   /\ Forall (report_request g options) (fetch_calls (snd c))
                   /\ Forall (fun entry => exists level msgs, entry = logger a level msgs)
                        (fst c))
    (dispatch_calls g options a request result m).
Proof.
  unfold dispatch_calls. destruct (isAsyncIterable result); [constructor|].
  destruct (m !! request); [|constructor].
  destruct (group_traces _ _) as [t|]; [|constructor].
  apply Forall_map, Forall_forall. intros sid _. apply sendTrace_plugin_task.
Qed.

Lemma step_background_ok g options a ev st :
  background_ok g options a st -> background_ok g options a (snd (step g options a ev st)).
Proof.
  intros (Ht & Hn & Hc & Hl). destruct ev as [schema|i|c|request result|i]; simpl.
  - by destruct schema.
  - unfold hash_settles. by destruct (st_hashing st !! i) as [[]|].
  - unfold onEnveloped. destruct c as [c|]; [|done].
    destruct (trace_context st c).
    + by destruct (signature_of (params c)).
    + simpl. split_and!; try done. apply Forall_app. split; [done|].
      repeat constructor. by eexists _, _.
  - destruct (onResultProcess_calls g options a request result st)
      as (Hw' & Hn' & (skipped & Hc' & Hskip) & _).
    pose proof (dispatch_calls_plugin g options a request result (st_ctxForReq st)) as Hcalls.
    unfold background_ok. rewrite Hw', Hn', Hc'. split_and!.
    + apply Forall_app. split; [done|]. apply Forall_map.
      eapply Forall_impl; [exact Hcalls|]. by intros c (? & _).
    + apply Forall_app. split; [done|]. apply Forall_concat, Forall_map.
      eapply Forall_impl; [exact Hcalls|]. by intros c (_ & ? & _).
    + apply Forall_app. split; [done|]. apply Forall_app. split.
      * destruct Hskip as [->|(msgs & ->)]; repeat constructor. by eexists _, _.
      * apply Forall_concat, Forall_map.
        eapply Forall_impl; [exact Hcalls|]. by intros c (_ & _ & ?).
    + rewrite !length_app, length_map.
      pose proof (fetch_calls_le (dispatch_calls g options a request result (st_ctxForReq st))).
      lia.
  - unfold task_resumes. destruct (st_waitUntil st !! i) as [t|] eqn:Hi; [|done]. simpl.
    assert (plugin_task g options a t) as Hti
      by (rewrite Forall_forall in Ht; apply Ht; by eapply list_elem_of_lookup_2).
    destruct (sendTrace_resume_plugin_task g options a t Hti) as [Ht' Hlog].
    unfold background_ok. simpl.
    split; [by apply Forall_insert|]. split; [done|]. split; [by apply Forall_app|].
    by rewrite length_insert.
Qed.

Lemma run_background_ok g options a events ctxForReq :
  background_ok g options a (run g options a events (init ctxForReq)).
Proof.
  apply run_invariant; [intros ev s; apply step_background_ok|].
  unfold background_ok. simpl. split_and!; [constructor | constructor | constructor | done].
Qed.

(** X15. In every world the plugin reaches, no promise that it gave to
    [waitUntil] is rejected, and every call of [fetch] it made belongs to one
    of these promises: there are no more requests than promises. *)
Theorem background_never_rejects g options a events ctxForReq :
  Forall (fun t => forall e, t <> Settled (Throw e))
    (st_waitUntil (run g options a events (init ctxForReq)))
  /\ length (st_network (run g options a events (init ctxForReq)))
     <= length (st_waitUntil (run g options a events (init ctxForReq))).
Proof.
  destruct (run_background_ok g options a events ctxForReq) as (Ht & _ & _ & Hl).
  split; [|done]. eapply Forall_impl; [exact Ht|].
  intros [] Hp e; simpl in Hp; congruence.
Qed.

(** X16. Every request the plugin makes is a [POST] to the configured
    endpoint, or to the default endpoint when none is configured, with the
    three headers [content-type: application/protobuf], [x-api-key] and
    [accept: application/json], the key being the option when it is defined
    and the environment variable otherwise. *)
Theorem requests_are_report_posts g options a events ctxForReq :
  Forall (fun r =>
            method r = "POST"
            /\ url r = match endpoint options with
                       | Some configured => configured
                       | None => DEFAULT_REPORTING_ENDPOINT
                       end
            /\ headers r
               = [("content-type", Some "application/protobuf");
                  ("x-api-key",
                   match apiKey options with
                   | Some key => Some key
                   | None => getEnvVar g "APOLLO_KEY" None
                   end);
                  ("accept", Some "application/json")])
    (st_network (run g options a events (init ctxForReq))).
Proof.
  destruct (run_background_ok g options a events ctxForReq) as (_ & Hn & _).
  eapply Forall_impl; [exact Hn|]. intros r (Hm & Hu & Hh). split_and!; [done | |].
  - rewrite Hu. by destruct (endpoint options).
  - rewrite Hh. by destruct (apiKey options).
Qed.

(** X17. Every entry that the plugin writes to the log of the host, in its
    hooks and in its background promises, is a call of the host's logger
    whose first argument is the tag [[ApolloUsageReport]]. *)
Theorem log_entries_are_tagged g options yoga events ctxForReq :
  Forall (fun entry =>
            exists level msgs,
              entry = yoga_logger yoga level (MStr "[ApolloUsageReport]" :: msgs))
    (st_console (run g options (fst (onYogaInit g options yoga)) events (init ctxForReq))).
Proof.
  destruct (run_background_ok g options (fst (onYogaInit g options yoga)) events ctxForReq)
    as (_ & _ & Hc & _).
  eapply Forall_impl; [exact Hc|]. intros entry (level & msgs & ->).
  exists level, msgs. unfold onYogaInit.
  by destruct (negb _); [|destruct (negb _)].
Qed.
End Worlds.

Section WorldsMore.
Context `{GraphQLJS} {Trace : Type} `{!ReportEncoder Trace}.
Implicit Types (st : State Trace) (a : Assigned).

Lemma task_resumes_lookup i st t :
  st_waitUntil st !! i = Some t ->
  st_waitUntil (task_resumes i st) !! i = Some (snd (sendTrace_resume t))
  /\ st_network (task_resumes i st) = st_network st.
Proof.
  intros Hi. unfold task_resumes. rewrite Hi. simpl. split; [|done].
  apply list_lookup_insert_eq. by eapply lookup_lt_Some.
Qed.

Lemma task_resumes_settled i st result :
  st_waitUntil st !! i = Some (Settled result) -> task_resumes i st = st.
Proof.
  intros Hi. unfold task_resumes. rewrite Hi. simpl.
  rewrite app_nil_r, list_insert_id by done. by destruct st.
Qed.

Lemma plugin_task_settles g options a t :
  plugin_task g options a t ->
  snd (sendTrace_resume (snd (sendTrace_resume t))) = Settled (Normal tt).
Proof.
  destruct t as [lg request [response|err]|lg response|result]; simpl.
  - intros _. destruct (text response); [|done]. by destruct (ok response).
  - done.
  - intros _. destruct (text response); [|done]. by destruct (ok response).
  - by intros ->.
Qed.

(** X18. A promise that the plugin gave to [waitUntil] is fulfilled after
    it has gone on twice at most (after [fetch], then after the body of the
    response); from then on nothing more happens to it, and going on never
    calls [fetch]: a report is not sent again. *)
Theorem task_settles_in_two_steps g options a events ctxForReq i t :
  st_waitUntil (run g options a events (init ctxForReq)) !! i = Some t ->
  st_waitUntil
    (task_resumes i (task_resumes i (run g options a events (init ctxForReq)))) !! i
  = Some (Settled (Normal tt))
  /\ st_network (task_resumes i (task_resumes i (run g options a events (init ctxForReq))))
     = st_network (run g options a events (init ctxForReq))
  /\ task_resumes i
       (task_resumes i (task_resumes i (run g options a events (init ctxForReq))))
     = task_resumes i (task_resumes i (run g options a events (init ctxForReq))).
Proof.
  intros Hi. set (st := run g options a events (init ctxForReq)) in *.
  destruct (run_background_ok g options a events ctxForReq) as (Ht & _).
  fold st in Ht.
  assert (plugin_task g options a t) as Hti
    by (rewrite Forall_forall in Ht; apply Ht; by eapply list_elem_of_lookup_2).
  destruct (task_resumes_lookup i st t Hi) as [H1 N1].
  destruct (task_resumes_lookup i _ _ H1) as [H2 N2].
  rewrite (plugin_task_settles g options a t Hti) in H2.
  split_and!; [done | by rewrite N2, N1 | by eapply task_resumes_settled].
Qed.

Lemma Forall_Map_alter {V : Type} (P : V -> Prop) (f : V -> V) (m : JsMap V) k :
  Forall (fun kv => P (snd kv)) m -> (forall v, P v -> P (f v)) ->
  Forall (fun kv => P (snd kv)) (Map_alter f k m).
Proof.
  intros Hm Hf. induction Hm as [|[k' v'] m Hv Hm IH]; simpl; [constructor|].
  destruct (Nat.eqb k' k); constructor; simpl in *; auto.
Qed.

Lemma step_ids_ok g options a ev st : ids_ok st -> ids_ok (snd (step g options a ev st)).
Proof.
  intros (Hv & Hp & Hr). destruct ev as [schema|i|c|request result|i]; simpl.
  - destruct schema as [schema|]; [|done]. simpl. split_and!; [done | | done].
    apply Forall_app. split; [done|]. constructor; [|constructor].
    intros id. unfold hashSHA256. destruct (subtle_digest _ _ _) as [digest|]; [|done].
    intros [= <-]. apply hex_of_bytes_hex.
  - unfold hash_settles. destruct (st_hashing st !! i) as [[id|e]|] eqn:Hi; [| |done].
    + simpl. split_and!; [| by apply Forall_delete | done].
      intros id' [= <-]. rewrite Forall_forall in Hp.
      apply (Hp (Normal id)); [by eapply list_elem_of_lookup_2 | done].
    + simpl. split_and!; [done | by apply Forall_delete | done].
  - unfold onEnveloped. destruct c as [c|]; [|done].
    destruct (trace_context st c); [|done].
    destruct (signature_of (params c)) as [signature|]; [|done].
    unfold ids_ok. simpl.
    split_and!; [done | done |]. intros r reqCtx.
    destruct (decide (request c = r)) as [<-|Hne].
    + rewrite lookup_alter_eq. destruct (st_ctxForReq st !! request c) as [reqCtx0|] eqn:Hreq;
        [|done].
      intros [= <-]. simpl. apply Forall_Map_alter; [by eapply Hr|].
      intros v _. split; simpl.
      * apply Hv.
      * intros key [= <-]. apply operationKey_not_inherited.
    + rewrite lookup_alter_ne by done. apply Hr.
  - destruct (onResultProcess_calls g options a request result st)
      as (_ & _ & _ & Hc & Hs & Hh).
    unfold ids_ok. by rewrite Hc, Hs, Hh.
  - unfold task_resumes. by destruct (st_waitUntil st !! i).
Qed.

(** X19. In every world the plugin reaches from trace records that the
    instrumentation left without schema id and operation key, a record that
    has both is one the dispatcher can group: its schema id is made of
    hexadecimal digits and its operation key starts with [#], so that
    neither is the name of a property that the grouping objects inherit. *)
Theorem stamped_records_are_groupable g options a events ctxForReq r reqCtx tr :
  (forall r0 reqCtx0, ctxForReq !! r0 = Some reqCtx0 ->
     Forall (fun kv => schemaId (snd kv) = None /\ operationKey (snd kv) = None)
       (traces reqCtx0)) ->
  st_ctxForReq (run g options a events (init ctxForReq)) !! r = Some reqCtx ->
  tr ∈ Map_values (traces reqCtx) ->
  populated tr = true ->
  groupable tr = true.
Proof.
  intros Hinit Hreq Hin Hpop.
  assert (ids_ok (run g options a events (init ctxForReq))) as (_ & _ & Hr).
  { apply run_invariant; [intros ev s; apply step_ids_ok|].
    split_and!; [done | constructor |]. simpl. intros r0 reqCtx0 Hr0.
    eapply Forall_impl; [by eapply Hinit|]. intros kv [Hs Hk].
    split; intros ?; [rewrite Hs | rewrite Hk]; done. }
  specialize (Hr r reqCtx Hreq). rewrite Forall_forall in Hr.
  unfold Map_values in Hin. apply list_elem_of_fmap in Hin as (kv & -> & Hkv).
  destruct (Hr kv Hkv) as [Hid Hkey].
  destruct (populated_inv _ Hpop) as (sid & key & Hs & Hk & _ & _).
  unfold groupable. rewrite Hpop, Hs, Hk. simpl.
  rewrite (Hkey key Hk), (inherited_key_all_hex sid (Hid sid Hs)). done.
Qed.

(** X20. When [crypto.subtle.digest] always fails, the schema id is never
    set: every [hashSHA256] promise is rejected, no [then] callback runs, and
    the variable stays [undefined] whatever happens. *)
Theorem digest_failure_leaves_schemaId_unset g options a events ctxForReq :
  (forall algorithm data, exists e, subtle_digest g algorithm data = Throw e) ->
  st_schemaId (run g options a events (init ctxForReq)) = None.
Proof.
  intros Hfail.
  assert (st_schemaId (run g options a events (init ctxForReq)) = None
          /\ Forall (fun p => exists e, p = Throw e)
               (st_hashing (run g options a events (init ctxForReq)))) as [Hv _]; [|done].
  apply (run_invariant g options a
           (fun s => st_schemaId s = None
                     /\ Forall (fun p => exists e, p = Throw e) (st_hashing s)));
    [|split; [done | constructor]].
  intros ev s [Hv Hp]. destruct ev as [schema|i|c|request result|i]; simpl.
  - destruct schema as [schema|]; [|done]. simpl. split; [done|].
    apply Forall_app. split; [done|]. constructor; [|constructor].
    unfold hashSHA256. destruct (Hfail "SHA-256" (TextEncoder_encode g (printSchema schema)))
      as [e ->]. by exists e.
  - unfold hash_settles. destruct (st_hashing s !! i) as [[id|e]|] eqn:Hi; [| |done].
    + rewrite Forall_forall in Hp.
      destruct (Hp (Normal id)) as [e He]; [by eapply list_elem_of_lookup_2 | done].
    + simpl. split; [done | by apply Forall_delete].
  - unfold onEnveloped. destruct c as [c|]; [|done].
    destruct (trace_context s c); [|done]. by destruct (signature_of (params c)).
  - destruct (onResultProcess_calls g options a request result s) as (_ & _ & _ & _ & -> & ->).
    done.
  - unfold task_resumes. by destruct (st_waitUntil s !! i).
Qed.
End WorldsMore.

(** ** The further properties on the small host *)

Lemma getEnvVar_result_witness :
  getEnvVar browser "APOLLO_KEY" (Some "service:key") = Some "service:key".
Proof.
  exact (proj2 (proj2 (getEnvVar_result browser "APOLLO_KEY" (Some "service:key"))) eq_refl).
Defined.

Lemma onYogaInit_outcome_witness :
  snd (onYogaInit (node [("APOLLO_GRAPH_REF", "env-graph@prod")])
         {| graphRef := None; apiKey := Some "service:key"; endpoint := None |}
         (yoga unreachable))
  = Normal tt.
Proof.
  apply (proj2 (proj1 (proj2 (onYogaInit_outcome _ _ _)))). split.
  - exists "service:key". split; [discriminate | right; reflexivity].
  - exists "env-graph@prod". split; [discriminate | left; vm_compute; reflexivity].
Defined.

Lemma hex_of_bytes_injective_witness :
  hex_of_bytes [x01; xab] <> hex_of_bytes [x01; xac].
Proof.
  intros Heq. apply (proj2 (hex_of_bytes_injective [x01; xab]) [x01; xac]) in Heq.
  discriminate Heq.
Defined.

Lemma group_traces_partition_witness :
  exists tracesPerSchema,
    group_traces (Map_values (traces two_schemas)) [] = Normal tracesPerSchema
    /\ cell tracesPerSchema "abc123" key_GetUser = Some {| tas_trace := Some [100; 300] |}
    /\ cell tracesPerSchema "def456" key_GetPosts = Some {| tas_trace := Some [200] |}
    /\ cell tracesPerSchema "def456" key_GetUser = None.
Proof.
  destruct (group_traces_partition (Map_values (traces two_schemas)))
    as (t & Ht & _ & _ & Hcell & _).
  - repeat constructor.
  - exists t. split; [exact Ht|]. split; [|split].
    + exact (Hcell "abc123" key_GetUser).
    + exact (Hcell "def456" key_GetPosts).
    + exact (Hcell "def456" key_GetUser).
Defined.

Lemma dispatch_in_order_of_appearance_witness :
  exists tracesPerSchema,
    st_waitUntil (snd (onResultProcess (node []) options (assigned unreachable) 7
                         ExecutionResult (serving two_schemas)))
    = map (fun sid =>
             snd (sendTrace (node []) options (logger (assigned unreachable))
                    (fetchAPI (assigned unreachable)) sid
                    (default [] (obj_get tracesPerSchema sid))))
        ["abc123"; "def456"].
Proof.
  destruct (dispatch_in_order_of_appearance (node []) options (assigned unreachable) 7
              ExecutionResult (serving two_schemas) two_schemas)
    as (t & _ & Hw).
  - reflexivity.
  - reflexivity.
  - repeat constructor.
  - exists t. exact Hw.
Defined.

Lemma dispatch_fetch_per_schema_witness :
  length (st_network (snd (onResultProcess (node []) options (assigned unreachable) 7
                             ExecutionResult (serving two_schemas))))
  = 2.
Proof.
  refine (proj1 (dispatch_fetch_per_schema (node []) options (assigned unreachable) 7
                   ExecutionResult (serving two_schemas) two_schemas _ _ _ _)).
  - intros report. eexists. reflexivity.
  - reflexivity.
  - reflexivity.
  - repeat constructor.
Defined.

Lemma envelope_twice_witness :
  snd (onEnveloped (assigned unreachable) (Some GetUser)
         (snd (onEnveloped (assigned unreachable) (Some GetUser) (init batch))))
  = snd (onEnveloped (assigned unreachable) (Some GetUser) (init batch)).
Proof.
  apply (envelope_twice (H := graphql) (assigned unreachable) GetUser (init batch)
           (untouched 100)).
  reflexivity.
Defined.

Lemma envelope_failure_then_dispatch_witness :
  fst (onResultProcess (node []) options (assigned unreachable) 7 ExecutionResult
         (run (H := strict_graphql) (node []) options (assigned unreachable)
            [SchemaChange (H := strict_graphql) (Some schema1); HashSettles 0;
             Enveloped (Some GetPosts)]
            (init batch)))
  = Throw misformed_trace.
Proof.
  refine (proj2 (envelope_failure_then_dispatch (H := strict_graphql) (node []) options
                   (assigned unreachable) Broken (init batch) (untouched 100)
                   {| err_class := GraphQLErrorC;
                      err_message := "Syntax Error: Unexpected character: ?" |}
                   [SchemaChange (H := strict_graphql) (Some schema1); HashSettles 0;
                    Enveloped (Some GetPosts)]
                   ExecutionResult _ _ _ _ _)).
  - reflexivity.
  - reflexivity.
  - vm_compute; reflexivity.
  - events_ok.
  - reflexivity.
Defined.


Lemma sendTrace_logs_once_witness :
  fst (fst (sendTrace_run
              (sendTrace (node []) options host_logger (collector 200 "ok") "abc123"
                 [(key_GetUser, {| tas_trace := Some [100] |})])))
  = [host_logger debug [MStr "Traces sent:"; MStr "ok"]]
  /\ fst (fst (sendTrace_run
                 (sendTrace (node []) options host_logger (collector 503 "busy") "abc123"
                    [(key_GetUser, {| tas_trace := Some [100] |})])))
     = [host_logger error [MStr "Failed to send trace:"; MStr "busy"]].
Proof.
  split.
  - eapply (proj1 (sendTrace_logs_once (node []) options host_logger (collector 200 "ok")
                     "abc123" [(key_GetUser, {| tas_trace := Some [100] |})])).
    + reflexivity.
    + reflexivity.
    + reflexivity.
  - eapply (proj1 (proj2 (sendTrace_logs_once (node []) options host_logger
                            (collector 503 "busy") "abc123"
                            [(key_GetUser, {| tas_trace := Some [100] |})]))).
    + reflexivity.
    + reflexivity.
    + reflexivity.
Defined.

Lemma sendTrace_encode_failure_witness :
  sendTrace_run
    (sendTrace (ReportEncoder0 := failing_encoder) (node []) options host_logger
       (collector 200 "ok") "abc123" [(key_GetUser, {| tas_trace := Some [100] |})])
  = ([host_logger error
        [MStr "Failed to send trace:";
         MErr {| err_class := ErrorC; err_message := "invalid report" |}]],
     [], Settled (Normal tt)).
Proof.
  apply (proj2 (sendTrace_encode_failure (ReportEncoder0 := failing_encoder) (node []) options
                  host_logger (collector 200 "ok") "abc123"
                  [(key_GetUser, {| tas_trace := Some [100] |})])).
  reflexivity.
Defined.

Lemma task_settles_in_two_steps_witness :
  st_waitUntil
    (task_resumes 0
       (task_resumes 0
          (run (H := graphql) (node []) options (assigned (collector 500 "down")) served
             (init batch)))) !! 0
  = Some (Settled (Normal tt)).
Proof.
  refine (proj1 (task_settles_in_two_steps (H := graphql) (node []) options
                   (assigned (collector 500 "down")) served batch 0 _ _)).
  vm_compute. reflexivity.
Defined.

Lemma stamped_records_are_groupable_witness :
  groupable
    (stamped key_GetUser "74797065205175657279207b20757365723a2055736572207d00000000000000"
       100)
  = true.
Proof.
  refine (stamped_records_are_groupable (H := graphql) (node []) options
            (assigned unreachable)
            [SchemaChange (H := graphql) (Some schema1); HashSettles 0;
             Enveloped (Some GetUser)]
            batch 7
            {| traces :=
                 [(1, stamped key_GetUser
                        "74797065205175657279207b20757365723a2055736572207d00000000000000"
                        100);
                  (2, untouched 200)] |}
            _ _ _ _ _).
  - intros r0 reqCtx0 Hr0. unfold batch in Hr0.
    apply lookup_singleton_Some in Hr0 as [_ <-].
    repeat constructor.
  - vm_compute; reflexivity.
  - left.
  - reflexivity.
Defined.

Lemma digest_failure_leaves_schemaId_unset_witness :
  st_schemaId
    (run (H := graphql) node_without_digest options (assigned unreachable)
       [SchemaChange (H := graphql) (Some schema1); HashSettles 0; Enveloped (Some GetUser)]
       (init batch))
  = None.
Proof.
  apply (digest_failure_leaves_schemaId_unset (H := graphql) node_without_digest).
  intros algorithm data. eexists. reflexivity.
Defined.
